(** * The onboarding "Follows" screen and the hashtag API record

    A shallow embedding of
      - [app/javascript/mastodon/features/onboarding/follows.tsx]
        (the [Follows] component: mode toggle, debounced and cancellable
        account search), and
      - the [ApiHashtagJSON] interface declaration,
    together with the properties stated about them.

    Conventions.
      - A JavaScript string is the list of its UTF-16 code units.
      - React state ([useState]) and the [useRef] cell are fields of one
        record; every observable effect of a handler (state setters, store
        dispatches, [abort()], [new AbortController()], [apiRequest]) is
        appended, in program order, to the [trace] of that record.
      - [AbortController] objects live in a store indexed by allocation
        order; the [useRef] cell holds an index into it, so that aliasing
        between the cell and the signal handed to [apiRequest] is kept.
      - The promise returned by [apiRequest] is settled by the environment:
        [Resolve] and [Reject] events run the [.then]/[.catch] callbacks. *)

From Stdlib Require Import NArith String Ascii.
From stdpp Require Import base list.

(** ** JavaScript strings *)

Definition code_unit := N.
Definition jsstring := list code_unit.

Fixpoint js (s : string) : jsstring :=
  match s with
  | EmptyString => []
  | String a rest => N_of_ascii a :: js rest
  end.

(** ECMAScript [WhiteSpace] and [LineTerminator] code points: the ones
    [String.prototype.trim] strips.  All of them are in the basic plane, so
    each is one code unit. *)
Definition isWhiteSpace (c : code_unit) : bool :=
  ((c =? 0x0009) || (c =? 0x000B) || (c =? 0x000C) || (c =? 0xFEFF)
   || (c =? 0x0020) || (c =? 0x00A0) || (c =? 0x1680)
   || ((0x2000 <=? c) && (c <=? 0x200A))
   || (c =? 0x202F) || (c =? 0x205F) || (c =? 0x3000))%N.

Definition isLineTerminator (c : code_unit) : bool :=
  ((c =? 0x000A) || (c =? 0x000D) || (c =? 0x2028) || (c =? 0x2029))%N.

Definition isTrimmable (c : code_unit) : bool :=
  isWhiteSpace c || isLineTerminator c.

Fixpoint trimStart (s : jsstring) : jsstring :=
  match s with
  | [] => []
  | c :: rest => if isTrimmable c then trimStart rest else s
  end.

Definition trimEnd (s : jsstring) : jsstring := rev (trimStart (rev s)).

Definition trim (s : jsstring) : jsstring := trimEnd (trimStart s).


(** ** The hashtag API record ([ApiHashtagJSON]) *)

Module Hashtag.

Record ApiHistoryJSON := {
  day : jsstring;
  accounts : jsstring;
  uses : jsstring;
}.

Record ApiHashtagJSON := {
  name : jsstring;
  url : jsstring;
  history : list ApiHistoryJSON;
  following : option bool;      (* [following?: boolean] *)
}.

(** The components of a record, as plain tuples. *)
Definition history_fields (h : ApiHistoryJSON)
  : jsstring * jsstring * jsstring :=
  (day h, accounts h, uses h).

Definition history_of_fields (t : jsstring * jsstring * jsstring)
  : ApiHistoryJSON :=
  let '(d, a, u) := t in {| day := d; accounts := a; uses := u |}.

Definition hashtag_fields (h : ApiHashtagJSON)
  : jsstring * jsstring * list (jsstring * jsstring * jsstring)
    * option bool :=
  (name h, url h, map history_fields (history h), following h).

Definition hashtag_of_fields
    (t : jsstring * jsstring * list (jsstring * jsstring * jsstring)
         * option bool)
  : ApiHashtagJSON :=
  let '(n, u, hs, f) := t in
  {| name := n; url := u; history := map history_of_fields hs;
     following := f |}.

End Hashtag.

(** ** The debouncer

    Modelled from the spec: [useDebouncedCallback] (package use-debounce) is
    imported by the component but is not part of its sources.  The model is
    the timer-based coalescer the specification describes for the options
    the component passes ([{ leading: true, trailing: true }]): it "fires
    immediately on the first call in a quiet period (leading) and again
    after the quiet period ends if additional calls arrived (trailing)",
    a machine with the states idle, pending-leading and pending-trailing,
    driven by a timer and by call arrivals.  Time is a logical clock. *)

Module Debounce.
Section Coalescer.

Context {A : Type}.          (* the argument of the wrapped callback *)

Inductive phase :=
| Idle
| PendingLeading             (* leading call done, nothing owed *)
| PendingTrailing (args : A) (* later calls arrived: a trailing call is owed *).

Record t := {
  now : N;                   (* the clock *)
  deadline : N;              (* when the quiet period ends *)
  st : phase;
}.

Definition idle_at (time : N) : t :=
  {| now := time; deadline := time; st := Idle |}.

(** A call of the debounced function.  Returns the arguments the wrapped
    callback is invoked with (none, or the leading call). Every call
    restarts the quiet period. *)
Definition call (wait : N) (v : A) (d : t) : list A * t :=
  match st d with
  | Idle =>
      ([v], {| now := now d; deadline := (now d + wait)%N;
               st := PendingLeading |})
  | PendingLeading | PendingTrailing _ =>
      ([], {| now := now d; deadline := (now d + wait)%N;
              st := PendingTrailing v |})
  end.

(** [dt] time units pass.  When the quiet period ends within them the
    timer fires: the trailing call, if one is owed, is made. *)
Definition elapse (dt : N) (d : t) : list A * t :=
  let time := (now d + dt)%N in
  match st d with
  | Idle => ([], {| now := time; deadline := deadline d; st := Idle |})
  | PendingLeading =>
      if (deadline d <=? time)%N
      then ([], {| now := time; deadline := deadline d; st := Idle |})
      else ([], {| now := time; deadline := deadline d;
                   st := PendingLeading |})
  | PendingTrailing v =>
      if (deadline d <=? time)%N
      then ([v], {| now := time; deadline := deadline d; st := Idle |})
      else ([], {| now := time; deadline := deadline d;
                   st := PendingTrailing v |})
  end.

End Coalescer.
Arguments phase : clear implicits.
Arguments t : clear implicits.
End Debounce.

(** ** The [Follows] component *)

(** [type Mode = 'remove' | 'add'] *)
Inductive Mode := Remove | Add.

Definition Mode_eqb (a b : Mode) : bool :=
  match a, b with
  | Remove, Remove | Add, Add => true
  | _, _ => false
  end.

(** Why a request promise was rejected: its signal was aborted, or the
    transport failed. *)
Inductive failure :=
| AbortError
| RequestError (message : jsstring).

(** How a promise settles. *)
Inductive settlement (A : Type) :=
| Fulfilled (value : A)
| Rejected (reason : failure).
Arguments Fulfilled {A} value.
Arguments Rejected {A} reason.

(** A promise returned by [apiRequest]: the controller whose signal it was
    given, its [q] parameter, and whether it has settled. *)
Record request := {
  signal : nat;
  q : jsstring;
  settled : bool;
}.

Definition settle_request (r : request) : request :=
  {| signal := signal r; q := q r; settled := true |}.

(** ** The search header ([ColumnSearchHeader])

    The header owns the text of the input ([useState('')]) and reports to
    its parent through the props [onBack] and [onSubmit]. *)

Module ColumnSearchHeader.

(** A call of one of the props. *)
Inductive call :=
| onBack
| onSubmit (value : jsstring).

Record state := {
  value : jsstring;            (* useState('') *)
}.

Definition init : state := {| value := [] |}.

(** [handleChange]: [setValue(value); onSubmit(value)]. *)
Definition handleChange (v : jsstring) (st : state) : state * list call :=
  ({| value := v |}, [onSubmit v]).

(** [handleSubmit]: [onSubmit(value)] with the text of the input. *)
Definition handleSubmit (st : state) : state * list call :=
  (st, [onSubmit (value st)]).

Inductive event :=
| Change (v : jsstring)        (* [onChange] of the input *)
| SubmitForm                   (* [onSubmit] of the form *)
| BackClick.                   (* [onClick] of the back button *)

Definition step (e : event) (st : state) : state * list call :=
  match e with
  | Change v => handleChange v st
  | SubmitForm => handleSubmit st
  | BackClick => (st, [onBack])
  end.

(** The state after the events and the calls made, in order. *)
Fixpoint run (evs : list event) (st : state) : state * list call :=
  match evs with
  | [] => (st, [])
  | e :: evs' =>
      let '(st1, calls1) := step e st in
      let '(st2, calls2) := run evs' st1 in
      (st2, calls1 ++ calls2)
  end.

(** The text of the last [Change], if any. *)
Definition lastChange (evs : list event) : option jsstring :=
  last (omap (λ e, match e with Change v => Some v | _ => None end) evs).

End ColumnSearchHeader.

(** Sample records for examples: an account with its identifier and user
    name, and a suggestion with the identifier of its account. *)
Definition sampleAccount : Type := jsstring * jsstring.
Definition sampleAccount_id (a : sampleAccount) : jsstring := fst a.
Definition sampleSuggestion : Type := jsstring.
Definition sampleSuggestion_account_id (g : sampleSuggestion) : jsstring := g.

Section Follows.

(** [ApiAccountJSON] (mastodon/api_types/accounts) and the suggestion
    records of the store are declared elsewhere; the component reads one
    field of each. *)
Variable ApiAccountJSON : Type.
Variable id : ApiAccountJSON → jsstring.            (* [a.id] *)
Variable Suggestion : Type.
Variable account_id : Suggestion → jsstring.       (* [suggestion.account_id] *)

(** Store actions the component dispatches. *)
Inductive action :=
| fetchSuggestions
| markAsPartial (timeline : jsstring)
| importFetchedAccounts (accounts : list ApiAccountJSON)
| fetchRelationships (accountIds : list jsstring).

(** Observable effects, in program order. *)
Inductive effect :=
| SetSearchAccountIds (ids : list jsstring)
| SetMode (m : Mode)
| SetSearching (b : bool)
| Dispatch (a : action)
| Abort (c : nat)
| NewAbortController (c : nat)
| ApiRequest (method path : jsstring) (sig : nat) (query : jsstring).

Record state := {
  searchAccountIds : list jsstring;     (* useState<string[]>([]) *)
  mode : Mode;                          (* useState<Mode>('remove') *)
  searching : bool;                     (* useState(false) *)
  searchRequestRef : option nat;        (* useRef<AbortController | null>(null) *)
  controllers : list bool;              (* [signal.aborted] of each controller *)
  requests : list request;
  trace : list effect;
}.

(** *** A state monad for handlers *)

Definition M (A : Type) : Type := state → A * state.

#[local] Instance M_ret : MRet M := λ A a s, (a, s).

#[local] Instance M_bind : MBind M := λ A B k m s,
  let '(a, s') := m s in k a s'.

Definition exec {A} (m : M A) (s : state) : state := snd (m s).

Definition modify (f : state → state) : M unit := λ s, (tt, f s).

Definition emit (e : effect) : M unit :=
  modify (λ s,
    {| searchAccountIds := searchAccountIds s; mode := mode s;
       searching := searching s; searchRequestRef := searchRequestRef s;
       controllers := controllers s; requests := requests s;
       trace := trace s ++ [e] |}).

Definition setSearchAccountIds (ids : list jsstring) : M unit :=
  modify (λ s,
    {| searchAccountIds := ids; mode := mode s;
       searching := searching s; searchRequestRef := searchRequestRef s;
       controllers := controllers s; requests := requests s;
       trace := trace s |});;
  emit (SetSearchAccountIds ids).

Definition setMode (m : Mode) : M unit :=
  modify (λ s,
    {| searchAccountIds := searchAccountIds s; mode := m;
       searching := searching s; searchRequestRef := searchRequestRef s;
       controllers := controllers s; requests := requests s;
       trace := trace s |});;
  emit (SetMode m).

Definition setSearching (b : bool) : M unit :=
  modify (λ s,
    {| searchAccountIds := searchAccountIds s; mode := mode s;
       searching := b; searchRequestRef := searchRequestRef s;
       controllers := controllers s; requests := requests s;
       trace := trace s |});;
  emit (SetSearching b).

Definition dispatch (a : action) : M unit := emit (Dispatch a).

(** [searchRequestRef.current] *)
Definition readRef : M (option nat) := λ s, (searchRequestRef s, s).

(** [searchRequestRef.current = c] *)
Definition writeRef (c : option nat) : M unit :=
  modify (λ s,
    {| searchAccountIds := searchAccountIds s; mode := mode s;
       searching := searching s; searchRequestRef := c;
       controllers := controllers s; requests := requests s;
       trace := trace s |}).

(** [c.abort()]: raises the controller's signal.  Aborting twice is
    harmless. *)
Definition abort (c : nat) : M unit :=
  modify (λ s,
    {| searchAccountIds := searchAccountIds s; mode := mode s;
       searching := searching s; searchRequestRef := searchRequestRef s;
       controllers := <[c := true]> (controllers s);
       requests := requests s; trace := trace s |});;
  emit (Abort c).

(** [new AbortController()]: a fresh controller whose signal is not
    aborted. *)
Definition allocController : M nat := λ s,
  (length (controllers s),
   {| searchAccountIds := searchAccountIds s; mode := mode s;
      searching := searching s; searchRequestRef := searchRequestRef s;
      controllers := controllers s ++ [false];
      requests := requests s; trace := trace s |}).

Definition newAbortController : M nat :=
  c ← allocController;
  emit (NewAbortController c);;
  mret c.

(** [apiRequest(method, path, { signal, params: { q } })]: starts the
    request and returns its (pending) promise. *)
Definition allocRequest (sig : nat) (query : jsstring) : M nat := λ s,
  (length (requests s),
   {| searchAccountIds := searchAccountIds s; mode := mode s;
      searching := searching s; searchRequestRef := searchRequestRef s;
      controllers := controllers s;
      requests := requests s
                  ++ [{| signal := sig; q := query; settled := false |}];
      trace := trace s |}).

Definition apiRequest (method path : jsstring) (sig : nat) (query : jsstring)
  : M nat :=
  p ← allocRequest sig query;
  emit (ApiRequest method path sig query);;
  mret p.

(** *** Promise chaining: [p.then(f)] and [p.catch(g)] *)

Definition then_ {A B} (f : A → M B) (o : settlement A)
  : M (settlement B) :=
  match o with
  | Fulfilled v => b ← f v; mret (Fulfilled b)
  | Rejected r => mret (Rejected r)
  end.

Definition catch_ {A B} (g : failure → M B) (o : settlement A)
  : M (settlement (A + B)) :=
  match o with
  | Fulfilled v => mret (Fulfilled (inl v))
  | Rejected r => b ← g r; mret (Fulfilled (inr b))
  end.

(** *** Handlers *)

Definition handleSearchClick : M unit := setMode Add.

Definition handleDismissSearchClick : M unit := setMode Remove.

(** The [.then] callback of [handleSearch]. *)
Definition onSearchFulfilled (data : list ApiAccountJSON) : M jsstring :=
  dispatch (importFetchedAccounts data);;
  dispatch (fetchRelationships (map id data));;
  setSearchAccountIds (map id data);;
  setSearching false;;
  mret (js "").

(** The [.catch] callback of [handleSearch]. *)
Definition onSearchRejected (_ : failure) : M unit :=
  setSearching false.

(** What runs when the promise of a search request settles:
    [.then(onSearchFulfilled).catch(onSearchRejected)]. *)
Definition searchSettled (o : settlement (list ApiAccountJSON))
  : M (settlement (jsstring + unit)) :=
  o' ← then_ onSearchFulfilled o;
  catch_ onSearchRejected o'.

(** The callback handed to [useDebouncedCallback].  The signal given to
    [apiRequest] is read back from the cell
    ([searchRequestRef.current.signal]). *)
Definition handleSearch (value : jsstring) : M unit :=
  cur ← readRef;
  match cur with
  | Some c => abort c
  | None => mret tt
  end;;
  if Nat.eqb (length (trim value)) 0 then
    setSearchAccountIds []
  else
    setSearching true;;
    c ← newAbortController;
    writeRef (Some c);;
    current ← readRef;
    match current with
    | Some c' =>
        _ ← apiRequest (js "GET") (js "v1/accounts/search") c' value;
        mret tt
    | None => mret tt             (* the cell was assigned just above *)
    end.

(** The state a run of [handleSearch] starts from once the controller in
    the [useRef] cell, if any, has been aborted. *)
Definition afterAbort (s : state) : state :=
  match searchRequestRef s with
  | Some c => exec (abort c) s
  | None => s
  end.

(** The effects of that first part of the run. *)
Definition abortEffects (s : state) : list effect :=
  match searchRequestRef s with
  | Some c => [Abort c]
  | None => []
  end.

(** *** Rendering *)

Definition displayedAccountIds (suggestions : list Suggestion) (s : state)
  : list jsstring :=
  if Mode_eqb (mode s) Add then searchAccountIds s
  else map account_id suggestions.

(** *** The component as a transition system *)

(** First render and the mount effect. *)
Definition mount : state :=
  exec (dispatch fetchSuggestions)
    {| searchAccountIds := []; mode := Remove; searching := false;
       searchRequestRef := None; controllers := []; requests := [];
       trace := [] |}.

(** The cleanup of the mount effect. *)
Definition unmount : M unit := dispatch (markAsPartial (js "home")).

Inductive event :=
| SearchClick                          (* the search button is clicked *)
| DismissSearchClick                   (* [onBack] of the search header *)
| Search (value : jsstring)            (* the debounced callback runs *)
| Resolve (p : nat) (data : list ApiAccountJSON)
| Reject (p : nat) (reason : failure).

(** Marks promise [p] settled; [None] when there is no such pending
    promise. *)
Definition settlePromise (p : nat) (s : state) : option state :=
  match requests s !! p with
  | Some r =>
      if settled r then None
      else Some {| searchAccountIds := searchAccountIds s; mode := mode s;
                   searching := searching s;
                   searchRequestRef := searchRequestRef s;
                   controllers := controllers s;
                   requests := <[p := settle_request r]> (requests s);
                   trace := trace s |}
  | None => None
  end.

Definition step (e : event) (s : state) : state :=
  match e with
  | SearchClick => exec handleSearchClick s
  | DismissSearchClick => exec handleDismissSearchClick s
  | Search value => exec (handleSearch value) s
  | Resolve p data =>
      match settlePromise p s with
      | Some s' => exec (searchSettled (Fulfilled data)) s'
      | None => s
      end
  | Reject p reason =>
      match settlePromise p s with
      | Some s' => exec (searchSettled (Rejected reason)) s'
      | None => s
      end
  end.

Definition run (evs : list event) (s : state) : state :=
  fold_left (fun s e => step e s) evs s.

(** Which handlers the rendered tree offers: the search button exists in
    mode ['remove'], the search header in mode ['add']. *)
Definition offered (e : event) (s : state) : bool :=
  match e with
  | SearchClick => Mode_eqb (mode s) Remove
  | DismissSearchClick => Mode_eqb (mode s) Add
  | _ => true
  end.

(** *** Cancellation bookkeeping *)

Definition aborted (s : state) (c : nat) : bool :=
  match controllers s !! c with
  | Some b => b
  | None => false
  end.

(** A request is in flight while its promise is pending and its signal has
    not been aborted. *)
Definition in_flight (s : state) (r : request) : bool :=
  negb (settled r) && negb (aborted s (signal r)).

Definition outstanding (s : state) : list request :=
  List.filter (in_flight s) (requests s).

(** *** The debounced handler

    [useDebouncedCallback(handleSearch, 500, { leading: true, trailing: true })]:
    what the search header calls as [onSubmit]. *)

Definition searchDebounceWait : N := 500.

Definition debounced : Type := Debounce.t jsstring * state.

Definition invoke (calls : list jsstring) (s : state) : state :=
  run (map Search calls) s.

Inductive keystroke :=
| Submit (value : jsstring)          (* [onSubmit(value)], from [handleChange] or [handleSubmit] *)
| Elapse (dt : N).                   (* time passes *)

Definition key (k : keystroke) (ds : debounced) : debounced :=
  let '(calls, d') :=
    match k with
    | Submit value => Debounce.call searchDebounceWait value (fst ds)
    | Elapse dt => Debounce.elapse dt (fst ds)
    end in
  (d', invoke calls (snd ds)).

Definition typing (ks : list keystroke) (ds : debounced) : debounced :=
  fold_left (fun ds k => key k ds) ks ds.

(** Keystrokes that follow one another: before each, [gap] time units
    pass. *)
Definition burst (calls : list (N * jsstring)) : list keystroke :=
  flat_map (fun gv => [Elapse (fst gv); Submit (snd gv)]) calls.

(** What every reachable state satisfies.  [signals] lists the controller
    of each request issued so far. *)
Definition signals (s : state) : list nat := map signal (requests s).

Record consistent (s : state) : Prop := {
  ref_allocated :
    ∀ c, searchRequestRef s = Some c → (c < length (controllers s))%nat;
  signals_allocated :
    Forall (λ c, (c < length (controllers s))%nat) (signals s);
  signals_distinct : NoDup (signals s);
  superseded_aborted :
    Forall (λ c, searchRequestRef s = Some c ∨ aborted s c = true)
           (signals s);
  aborted_traced : ∀ c, aborted s c = true → Abort c ∈ trace s;
}.

(** The quiet period is running. *)
Definition waiting (d : Debounce.t jsstring) : Prop :=
  Debounce.deadline d = (Debounce.now d + searchDebounceWait)%N ∧
  Debounce.st d ≠ Debounce.Idle.

(** *** What is rendered *)

Inductive headerView :=
| ColumnHeaderView              (* title, back button and search button *)
| ColumnSearchHeaderView.       (* [ColumnSearchHeader] *)

Inductive messageId :=
| onboarding_follows_empty
| lists_no_results_found.

(** The header chosen and the props of [ScrollableList]; [children] holds
    the [id] (and [key]) of each [Account] row. *)
Record view := {
  header : headerView;
  showLoading : bool;
  hasMore : bool;
  isLoading : bool;
  emptyMessage : messageId;
  children : list jsstring;
}.

(** The render of [Follows]; [storeIsLoading] and [suggestions] are what
    the two store selectors return. *)
Definition render (storeIsLoading : bool) (suggestions : list Suggestion)
    (s : state) : view :=
  let displayed := displayedAccountIds suggestions s in
  {| header := if Mode_eqb (mode s) Remove then ColumnHeaderView
               else ColumnSearchHeaderView;
     showLoading := (storeIsLoading || searching s)
                    && Nat.eqb (length displayed) 0;
     hasMore := false;
     isLoading := storeIsLoading || searching s;
     emptyMessage := if Mode_eqb (mode s) Remove then onboarding_follows_empty
                     else lists_no_results_found;
     children := displayed |}.

(** *** Reading traces *)

Definition isFetchSuggestions (e : effect) : bool :=
  match e with
  | Dispatch fetchSuggestions => true
  | _ => false
  end.

Definition isMarkAsPartial (e : effect) : bool :=
  match e with
  | Dispatch (markAsPartial _) => true
  | _ => false
  end.

Definition isClick (e : event) : bool :=
  match e with
  | SearchClick | DismissSearchClick => true
  | _ => false
  end.

(** Unfolds the monad so that a handler run computes to a record. *)
Ltac run_handler :=
  unfold step, exec, handleSearchClick, handleDismissSearchClick,
    searchSettled, then_, catch_, onSearchFulfilled, onSearchRejected,
    newAbortController, apiRequest, allocController, allocRequest,
    abort, writeRef, readRef, setSearchAccountIds, setMode, setSearching,
    dispatch, emit, modify, mbind, M_bind, mret, M_ret;
  simpl.

  (** ** Facts about [trim] *)

Lemma trimStart_nil_iff (s : jsstring) :
  trimStart s = [] ↔ forallb isTrimmable s = true.
Proof.
  induction s as [|c rest IH]; simpl; [tauto|].
  destruct (isTrimmable c); simpl; [exact IH|].
  split; intros H; discriminate H.
Qed.

Lemma trimStart_suffix (s : jsstring) :
  ∃ pre, s = pre ++ trimStart s ∧ forallb isTrimmable pre = true.
Proof.
  induction s as [|c rest [pre [Hs Hpre]]]; simpl.
  - exists []. split; reflexivity.
  - destruct (isTrimmable c) eqn:Hc.
    + exists (c :: pre). simpl. rewrite Hc, Hpre. split; [|reflexivity].
      f_equal. exact Hs.
    + exists []. split; reflexivity.
Qed.

Lemma trimStart_head (s : jsstring) (c : code_unit) (rest : jsstring) :
  trimStart s = c :: rest → isTrimmable c = false.
Proof.
  induction s as [|d s' IH]; simpl; [discriminate|].
  destruct (isTrimmable d) eqn:Hd; [exact IH|].
  intros H. injection H as -> _. exact Hd.
Qed.

Lemma forallb_rev_true {A} (p : A → bool) (l : list A) :
  forallb p (rev l) = true ↔ forallb p l = true.
Proof.
  rewrite !forallb_forall. split; intros H x Hx; apply H.
  - apply in_rev in Hx. exact Hx.
  - apply in_rev. exact Hx.
Qed.

Lemma trim_length_zero_iff (s : jsstring) :
  length (trim s) = 0%nat ↔ forallb isTrimmable s = true.
Proof.
  unfold trim, trimEnd. rewrite length_rev.
  split.
  - intros H. apply nil_length_inv in H.
    apply trimStart_nil_iff in H.
    apply (proj1 (forallb_rev_true _ _)) in H.
    destruct (trimStart_suffix s) as [pre [Hs Hpre]].
    rewrite Hs, forallb_app, Hpre, H. reflexivity.
  - intros H. apply trimStart_nil_iff in H. rewrite H. reflexivity.
Qed.

(** ** Running handlers *)

Lemma settlePromise_Some (p : nat) (r : request) (s : state) :
  requests s !! p = Some r → settled r = false →
  settlePromise p s =
    Some {| searchAccountIds := searchAccountIds s; mode := mode s;
            searching := searching s;
            searchRequestRef := searchRequestRef s;
            controllers := controllers s;
            requests := <[p := settle_request r]> (requests s);
            trace := trace s |}.
Proof. intros Hp Hr. unfold settlePromise. rewrite Hp, Hr. reflexivity. Qed.

Lemma settlePromise_fields (p : nat) (s s' : state) :
  settlePromise p s = Some s' →
  searchAccountIds s' = searchAccountIds s ∧ mode s' = mode s ∧
  searching s' = searching s ∧ searchRequestRef s' = searchRequestRef s ∧
  controllers s' = controllers s ∧ trace s' = trace s ∧
  signals s' = signals s.
Proof.
  unfold settlePromise.
  destruct (requests s !! p) as [r|] eqn:Hp; [|discriminate].
  destruct (settled r); [discriminate|].
  intros [= <-]. unfold signals. simpl. repeat split.
  rewrite list_fmap_insert. apply list_insert_id.
  rewrite list_lookup_fmap, Hp. reflexivity.
Qed.

Lemma handleSearch_exec (value : jsstring) (s : state) :
  exec (handleSearch value) s =
    if Nat.eqb (length (trim value)) 0
    then exec (setSearchAccountIds []) (afterAbort s)
    else
      exec (setSearching true;;
            c ← newAbortController;
            writeRef (Some c);;
            current ← readRef;
            match current with
            | Some c' =>
                _ ← apiRequest (js "GET") (js "v1/accounts/search") c' value;
                mret tt
            | None => mret tt
            end) (afterAbort s).
Proof.
  unfold handleSearch, afterAbort, exec, readRef.
  unfold mbind at 1 2. unfold M_bind at 1 2.
  destruct (searchRequestRef s) as [c|];
    destruct (Nat.eqb (length (trim value)) 0).
  all: reflexivity.
Qed.

Lemma afterAbort_fields (s : state) :
  searchAccountIds (afterAbort s) = searchAccountIds s ∧
  mode (afterAbort s) = mode s ∧
  searching (afterAbort s) = searching s ∧
  searchRequestRef (afterAbort s) = searchRequestRef s ∧
  requests (afterAbort s) = requests s ∧
  trace (afterAbort s) = trace s ++ abortEffects s ∧
  controllers (afterAbort s) =
    match searchRequestRef s with
    | Some c => <[c := true]> (controllers s)
    | None => controllers s
    end.
Proof.
  unfold afterAbort, abortEffects.
  destruct (searchRequestRef s) as [c|] eqn:Href; run_handler;
    rewrite ?app_nil_r; repeat split; assumption.
Qed.

Lemma handleSearch_empty (value : jsstring) (s : state) :
  length (trim value) = 0%nat →
  step (Search value) s = exec (setSearchAccountIds []) (afterAbort s).
Proof.
  intros Hlen. unfold step. rewrite handleSearch_exec, Hlen. reflexivity.
Qed.

Lemma handleSearch_nonempty (value : jsstring) (s : state) :
  length (trim value) ≠ 0%nat →
  step (Search value) s =
    let s1 := afterAbort s in
    let c := length (controllers s1) in
    {| searchAccountIds := searchAccountIds s1; mode := mode s1;
       searching := true; searchRequestRef := Some c;
       controllers := controllers s1 ++ [false];
       requests := requests s1
                   ++ [{| signal := c; q := value; settled := false |}];
       trace := trace s1
                ++ [SetSearching true; NewAbortController c;
                    ApiRequest (js "GET") (js "v1/accounts/search") c value]
    |}.
Proof.
  intros Hlen. unfold step. rewrite handleSearch_exec.
  apply Nat.eqb_neq in Hlen. rewrite Hlen.
  run_handler. rewrite <- !app_assoc. reflexivity.
Qed.

(** ** The mode toggle *)

(** C6. The mode starts as ['remove']; the search button sets it to ['add'],
    the back button sets it to ['remove'], no other event changes it, and
    in every state the rendered tree offers the button that leaves the
    current mode, so no state is terminal. *)
Theorem mode_machine :
  mode mount = Remove ∧
  (∀ (e : event) (s : state),
     mode (step e s) =
       match e with
       | SearchClick => Add
       | DismissSearchClick => Remove
       | Search _ | Resolve _ _ | Reject _ _ => mode s
       end) ∧
  (∀ s : state, ∃ e : event,
     offered e s = true ∧ mode (step e s) ≠ mode s).
Proof.
  split; [reflexivity|]. split.
  - intros [| |value|p data|p reason] s.
    + reflexivity.
    + reflexivity.
    + unfold step. rewrite handleSearch_exec.
      destruct (afterAbort_fields s) as (_ & Hmode & _).
      destruct (Nat.eqb (length (trim value)) 0); run_handler; exact Hmode.
    + unfold step.
      destruct (settlePromise p s) as [s'|] eqn:Hs'; [|reflexivity].
      apply settlePromise_fields in Hs' as (_ & Hmode & _).
      run_handler. exact Hmode.
    + unfold step.
      destruct (settlePromise p s) as [s'|] eqn:Hs'; [|reflexivity].
      apply settlePromise_fields in Hs' as (_ & Hmode & _).
      run_handler. exact Hmode.
  - intros s. destruct (mode s) eqn:Hmode.
    + exists SearchClick. unfold offered. rewrite Hmode.
      split; [reflexivity|discriminate].
    + exists DismissSearchClick. unfold offered. rewrite Hmode.
      split; [reflexivity|discriminate].
Qed.

(** C8. The back action changes the mode and nothing else: the search
    results, the searching flag, the pending request and the controllers
    are as before. *)
Theorem dismiss_keeps_search_results (s : state) :
  step DismissSearchClick s =
    {| searchAccountIds := searchAccountIds s; mode := Remove;
       searching := searching s; searchRequestRef := searchRequestRef s;
       controllers := controllers s; requests := requests s;
       trace := trace s ++ [SetMode Remove] |}
  ∧ searchAccountIds (step DismissSearchClick s) = searchAccountIds s.
Proof. split; reflexivity. Qed.

(** ** Settling a search request *)

Lemma resolve_exec (s : state) (p : nat) (r : request)
    (data : list ApiAccountJSON) :
  requests s !! p = Some r → settled r = false →
  step (Resolve p data) s =
    {| searchAccountIds := map id data; mode := mode s;
       searching := false; searchRequestRef := searchRequestRef s;
       controllers := controllers s;
       requests := <[p := settle_request r]> (requests s);
       trace := trace s
                ++ [Dispatch (importFetchedAccounts data);
                    Dispatch (fetchRelationships (map id data));
                    SetSearchAccountIds (map id data);
                    SetSearching false] |}.
Proof.
  intros Hp Hr. unfold step. rewrite (settlePromise_Some p r s Hp Hr).
  run_handler. rewrite <- !app_assoc. reflexivity.
Qed.

Lemma reject_exec (s : state) (p : nat) (r : request) (reason : failure) :
  requests s !! p = Some r → settled r = false →
  step (Reject p reason) s =
    {| searchAccountIds := searchAccountIds s; mode := mode s;
       searching := false; searchRequestRef := searchRequestRef s;
       controllers := controllers s;
       requests := <[p := settle_request r]> (requests s);
       trace := trace s ++ [SetSearching false] |}.
Proof.
  intros Hp Hr. unfold step. rewrite (settlePromise_Some p r s Hp Hr).
  reflexivity.
Qed.

(** C2. When a pending search request resolves with the records [data], the
    result identifier list becomes the identifiers of [data], in the order
    of [data], and the searching flag becomes false; in mode ['add'] that
    list is the displayed one. *)
Theorem search_success_sets_results (s : state) (p : nat) (r : request)
    (data : list ApiAccountJSON) (suggestions : list Suggestion) :
  requests s !! p = Some r → settled r = false →
  searchAccountIds (step (Resolve p data) s) = map id data ∧
  searching (step (Resolve p data) s) = false ∧
  displayedAccountIds suggestions (step (Resolve p data) s) =
    (if Mode_eqb (mode s) Add then map id data
     else map account_id suggestions).
Proof.
  intros Hp Hr. rewrite (resolve_exec s p r data Hp Hr).
  repeat split.
Qed.

(** C7. When a pending search request resolves with the records [data], the
    records are dispatched to the import action and their identifiers to
    the relationship-fetch action, in that order; the callback does not
    wait for either: the state updates follow in the same run. *)
Theorem search_success_dispatches (s : state) (p : nat) (r : request)
    (data : list ApiAccountJSON) :
  requests s !! p = Some r → settled r = false →
  trace (step (Resolve p data) s) =
    trace s
    ++ [Dispatch (importFetchedAccounts data);
        Dispatch (fetchRelationships (map id data));
        SetSearchAccountIds (map id data);
        SetSearching false].
Proof.
  intros Hp Hr. rewrite (resolve_exec s p r data Hp Hr). reflexivity.
Qed.

(** C4. When a pending search request is rejected, whether because it was
    aborted or because the transport failed, the searching flag becomes
    false, the result identifier list and the mode are as before, nothing
    but that flag is set, and the promise chain ends fulfilled: the
    rejection goes no further. *)
Theorem search_failure_swallowed (s : state) (p : nat) (r : request)
    (reason : failure) :
  requests s !! p = Some r → settled r = false →
  searching (step (Reject p reason) s) = false ∧
  searchAccountIds (step (Reject p reason) s) = searchAccountIds s ∧
  mode (step (Reject p reason) s) = mode s ∧
  trace (step (Reject p reason) s) = trace s ++ [SetSearching false] ∧
  (∀ s0 : state,
     fst (searchSettled (Rejected reason) s0) = Fulfilled (inr tt)).
Proof.
  intros Hp Hr. rewrite (reject_exec s p r reason Hp Hr).
  repeat split.
Qed.

(** ** The empty query *)

(** C3. When the trimmed query is empty, the handler sets the result
    identifier list to the empty list in the same run, starts no request
    and creates no controller; all it does besides is abort the controller
    in the [useRef] cell, if there is one. *)
Theorem empty_query_clears_results (s : state) (value : jsstring) :
  length (trim value) = 0%nat →
  searchAccountIds (step (Search value) s) = [] ∧
  requests (step (Search value) s) = requests s ∧
  length (controllers (step (Search value) s)) = length (controllers s) ∧
  searching (step (Search value) s) = searching s ∧
  trace (step (Search value) s) =
    trace s
    ++ match searchRequestRef s with
       | Some c => [Abort c]
       | None => []
       end
    ++ [SetSearchAccountIds []].
Proof.
  intros Hlen. rewrite (handleSearch_empty value s Hlen).
  destruct (afterAbort_fields s) as (_ & _ & Hsearching & _ & Hreq & Htr & Hc).
  run_handler. rewrite Htr, Hc, <- app_assoc.
  repeat split; try assumption.
  destruct (searchRequestRef s); [apply length_insert|reflexivity].
Qed.

(** ** Reachable states are consistent *)

Lemma aborted_true_iff (s : state) (c : nat) :
  aborted s c = true ↔ controllers s !! c = Some true.
Proof.
  unfold aborted. destruct (controllers s !! c) as [[]|]; split;
    intros H; try reflexivity; try discriminate H.
Qed.

Lemma consistent_mount : consistent mount.
Proof.
  split; simpl.
  - intros c H. discriminate H.
  - constructor.
  - constructor.
  - constructor.
  - intros c H. discriminate H.
Qed.

(** Handlers that touch neither the cell, nor the controllers, nor the
    signals of the requests, and only extend the trace. *)
Lemma consistent_frame (s s' : state) (added : list effect) :
  searchRequestRef s' = searchRequestRef s →
  controllers s' = controllers s →
  signals s' = signals s →
  trace s' = trace s ++ added →
  consistent s → consistent s'.
Proof.
  intros Href Hctl Hsig Htr [H1 H2 H3 H4 H5].
  assert (Hab : ∀ c, aborted s' c = aborted s c).
  { intros c. unfold aborted. rewrite Hctl. reflexivity. }
  split.
  - rewrite Href, Hctl. exact H1.
  - rewrite Hsig, Hctl. exact H2.
  - rewrite Hsig. exact H3.
  - rewrite Hsig, Href. eapply Forall_impl; [exact H4|].
    intros c Hc. simpl in Hc. rewrite Hab. exact Hc.
  - intros c Hc. rewrite Hab in Hc. rewrite Htr.
    apply elem_of_app. left. apply H5, Hc.
Qed.

Lemma consistent_afterAbort (s : state) :
  consistent s →
  consistent (afterAbort s) ∧
  Forall (λ c, aborted (afterAbort s) c = true) (signals (afterAbort s)).
Proof.
  intros Hs. destruct Hs as [H1 H2 H3 H4 H5] eqn:HeqHs. clear HeqHs.
  destruct (afterAbort_fields s) as (_ & _ & _ & Href & Hreq & Htr & Hctl).
  assert (Hsig : signals (afterAbort s) = signals s).
  { unfold signals. rewrite Hreq. reflexivity. }
  unfold abortEffects in Htr.
  destruct (searchRequestRef s) as [c|] eqn:Hcur.
  - assert (Hlt : (c < length (controllers s))%nat) by (apply H1; reflexivity).
    assert (Hmono : ∀ c', aborted s c' = true → aborted (afterAbort s) c' = true).
    { intros c' Hc'. apply aborted_true_iff. apply aborted_true_iff in Hc'.
      rewrite Hctl. destruct (decide (c = c')) as [->|Hne].
      - apply list_lookup_insert_eq, Hlt.
      - rewrite list_lookup_insert_ne by exact Hne. exact Hc'. }
    assert (Hnow : aborted (afterAbort s) c = true).
    { apply aborted_true_iff. rewrite Hctl.
      apply list_lookup_insert_eq, Hlt. }
    assert (Hall : Forall (λ c', aborted (afterAbort s) c' = true) (signals s)).
    { eapply Forall_impl; [exact H4|]. intros c' [Hc'|Hc']; simpl in *.
      - injection Hc' as ->. exact Hnow.
      - apply Hmono, Hc'. }
    split; [split|].
    + rewrite Href, Hctl, length_insert. intros c' [= <-]. exact Hlt.
    + rewrite Hsig, Hctl, length_insert. exact H2.
    + rewrite Hsig. exact H3.
    + rewrite Hsig. eapply Forall_impl; [exact Hall|].
      intros c' Hc'. right. exact Hc'.
    + intros c' Hc'. rewrite Htr. apply elem_of_app.
      apply aborted_true_iff in Hc'. rewrite Hctl in Hc'.
      destruct (decide (c = c')) as [->|Hne].
      * right. apply list_elem_of_singleton. reflexivity.
      * rewrite list_lookup_insert_ne in Hc' by exact Hne.
        left. apply H5, aborted_true_iff, Hc'.
    + rewrite Hsig. exact Hall.
  - assert (Hsame : afterAbort s = s).
    { unfold afterAbort. rewrite Hcur. reflexivity. }
    rewrite Hsame. split; [exact Hs|].
    eapply Forall_impl; [exact H4|]. intros c' [Hc'|Hc']; simpl in *.
    + discriminate Hc'.
    + exact Hc'.
Qed.

Lemma consistent_search (value : jsstring) (s : state) :
  consistent s → consistent (step (Search value) s).
Proof.
  intros Hs.
  destruct (consistent_afterAbort s Hs) as [[H1 H2 H3 H4 H5] Hall].
  destruct (Nat.eq_dec (length (trim value)) 0) as [Hlen|Hlen].
  - rewrite (handleSearch_empty value s Hlen).
    eapply (consistent_frame (afterAbort s) _ [SetSearchAccountIds []]);
      [reflexivity..|].
    split; assumption.
  - rewrite (handleSearch_nonempty value s Hlen). simpl.
    set (s1 := afterAbort s) in *.
    set (c := length (controllers s1)).
    split; unfold signals, aborted; simpl.
    + intros c' [= <-]. rewrite length_app. simpl. lia.
    + rewrite fmap_app, length_app. simpl. apply Forall_app. split.
      * eapply Forall_impl; [exact H2|]. intros c' Hc'. simpl in Hc'. lia.
      * constructor; [fold c; lia|constructor].
    + rewrite fmap_app. simpl. apply NoDup_app. split; [exact H3|]. split.
      * intros c' Hin Hc'. apply list_elem_of_singleton in Hc'. subst c'.
        rewrite Forall_forall in H2. specialize (H2 c Hin). simpl in H2.
        unfold c in H2. lia.
      * apply NoDup_singleton.
    + rewrite fmap_app. simpl. apply Forall_app. split.
      * rewrite Forall_forall in Hall, H2. apply Forall_forall.
        intros c' Hin. right.
        specialize (Hall c' Hin). specialize (H2 c' Hin). simpl in *.
        apply aborted_true_iff in Hall.
        rewrite lookup_app_l by exact H2. rewrite Hall. reflexivity.
      * constructor; [left; reflexivity|constructor].
    + intros c' Hc'. apply elem_of_app. left. apply H5.
      destruct (decide (c' < length (controllers s1))%nat) as [Hlt|Hge].
      * rewrite lookup_app_l in Hc' by exact Hlt. exact Hc'.
      * rewrite lookup_app_r in Hc' by lia.
        destruct (c' - length (controllers s1))%nat; simpl in Hc';
          discriminate Hc'.
Qed.

Lemma consistent_step (e : event) (s : state) :
  consistent s → consistent (step e s).
Proof.
  intros Hs. destruct e as [| |value|p data|p reason].
  - apply (consistent_frame s (step SearchClick s) [SetMode Add]);
      [reflexivity..|exact Hs].
  - apply (consistent_frame s (step DismissSearchClick s) [SetMode Remove]);
      [reflexivity..|exact Hs].
  - apply consistent_search, Hs.
  - unfold step. destruct (settlePromise p s) as [s'|] eqn:Hs'; [|exact Hs].
    apply settlePromise_fields in Hs' as (_ & _ & _ & Href & Hctl & Htr & Hsig).
    eapply (consistent_frame s _
              [Dispatch (importFetchedAccounts data);
               Dispatch (fetchRelationships (map id data));
               SetSearchAccountIds (map id data);
               SetSearching false]); [..|exact Hs].
    + exact Href.
    + exact Hctl.
    + exact Hsig.
    + run_handler. rewrite Htr, <- !app_assoc. reflexivity.
  - unfold step. destruct (settlePromise p s) as [s'|] eqn:Hs'; [|exact Hs].
    apply settlePromise_fields in Hs' as (_ & _ & _ & Href & Hctl & Htr & Hsig).
    eapply (consistent_frame s _ [SetSearching false]); [..|exact Hs].
    + exact Href.
    + exact Hctl.
    + exact Hsig.
    + run_handler. rewrite Htr. reflexivity.
Qed.

Lemma consistent_run (evs : list event) (s : state) :
  consistent s → consistent (run evs s).
Proof.
  revert s. induction evs as [|e evs IH]; intros s Hs; simpl.
  - exact Hs.
  - apply IH, consistent_step, Hs.
Qed.

Lemma reachable_consistent (evs : list event) : consistent (run evs mount).
Proof. apply consistent_run, consistent_mount. Qed.

(** ** At most one request in flight *)

Lemma filter_none {A} (f : A → bool) (l : list A) :
  (∀ x, x ∈ l → f x = false) → List.filter f l = [].
Proof.
  induction l as [|x l IH]; intros H; simpl; [reflexivity|].
  rewrite (H x) by (left). apply IH. intros y Hy. apply H. right. exact Hy.
Qed.

Lemma filter_at_most_one (f : request → bool) (c : nat) (l : list request) :
  NoDup (map signal l) →
  (∀ r, r ∈ l → f r = true → signal r = c) →
  (length (List.filter f l) ≤ 1)%nat.
Proof.
  induction l as [|r l IH]; intros Hnd Hf; simpl; [lia|].
  apply NoDup_cons in Hnd as [Hnotin Hnd].
  destruct (f r) eqn:Hr.
  - rewrite filter_none; [simpl; lia|].
    intros r' Hr'. destruct (f r') eqn:Hfr'; [|reflexivity].
    exfalso. apply Hnotin.
    rewrite (Hf r (list_elem_of_here _ _) Hr).
    rewrite <- (Hf r' (list_elem_of_further _ _ _ Hr') Hfr').
    apply list_elem_of_fmap. exists r'. split; [reflexivity|exact Hr'].
  - apply IH; [exact Hnd|]. intros r' Hr'. apply Hf. right. exact Hr'.
Qed.

Lemma in_flight_is_current (s : state) (r : request) :
  consistent s → r ∈ requests s → in_flight s r = true →
  searchRequestRef s = Some (signal r).
Proof.
  intros Hs Hin Hfl.
  pose proof (superseded_aborted s Hs) as H4. rewrite Forall_forall in H4.
  destruct (H4 (signal r)) as [Hcur|Hab].
  - apply list_elem_of_fmap. exists r. split; [reflexivity|exact Hin].
  - exact Hcur.
  - unfold in_flight in Hfl. rewrite Hab in Hfl.
    rewrite andb_false_r in Hfl. discriminate Hfl.
Qed.

Lemma consistent_outstanding (s : state) :
  consistent s → (length (outstanding s) ≤ 1)%nat.
Proof.
  intros Hs. unfold outstanding.
  destruct (searchRequestRef s) as [c|] eqn:Hcur.
  - apply (filter_at_most_one _ c); [exact (signals_distinct s Hs)|].
    intros r Hin Hfl. pose proof (in_flight_is_current s r Hs Hin Hfl) as H.
    rewrite Hcur in H. injection H as ->. reflexivity.
  - rewrite filter_none; [simpl; lia|].
    intros r Hin. destruct (in_flight s r) eqn:Hfl; [|reflexivity].
    pose proof (in_flight_is_current s r Hs Hin Hfl) as H.
    rewrite Hcur in H. discriminate H.
Qed.

Lemma afterAbort_length (s : state) :
  length (controllers (afterAbort s)) = length (controllers s).
Proof.
  destruct (afterAbort_fields s) as (_ & _ & _ & _ & _ & _ & Hctl).
  rewrite Hctl. destruct (searchRequestRef s); [apply length_insert|reflexivity].
Qed.

(** What a run of [handleSearch] does to the controllers, the requests and
    the trace. *)
Lemma search_fields (value : jsstring) (s : state) :
  controllers (step (Search value) s) =
    controllers (afterAbort s)
    ++ (if Nat.eqb (length (trim value)) 0 then [] else [false]) ∧
  requests (step (Search value) s) =
    requests s
    ++ (if Nat.eqb (length (trim value)) 0 then []
        else [{| signal := length (controllers s); q := value;
                 settled := false |}]) ∧
  trace (step (Search value) s) =
    trace s ++ abortEffects s
    ++ (if Nat.eqb (length (trim value)) 0 then [SetSearchAccountIds []]
        else [SetSearching true; NewAbortController (length (controllers s));
              ApiRequest (js "GET") (js "v1/accounts/search")
                (length (controllers s)) value]).
Proof.
  destruct (afterAbort_fields s) as (_ & _ & _ & _ & Hreq & Htr & _).
  pose proof (afterAbort_length s) as Hlen.
  destruct (Nat.eq_dec (length (trim value)) 0) as [Hz|Hnz].
  - rewrite (handleSearch_empty value s Hz), Hz. run_handler.
    rewrite Htr, Hreq, !app_nil_r, <- app_assoc. repeat split.
  - rewrite (handleSearch_nonempty value s Hnz).
    apply Nat.eqb_neq in Hnz. rewrite Hnz. simpl.
    rewrite Htr, Hreq, Hlen, <- app_assoc. repeat split.
Qed.

Lemma aborted_after_search (value : jsstring) (s : state) (c : nat) :
  aborted (afterAbort s) c = true → aborted (step (Search value) s) c = true.
Proof.
  intros H. apply aborted_true_iff. apply aborted_true_iff in H.
  destruct (search_fields value s) as (Hctl & _ & _). rewrite Hctl.
  apply lookup_app_l_Some, H.
Qed.

Lemma earlier_requests_cancelled (value : jsstring) (s : state) (r : request) :
  consistent s → r ∈ requests s →
  aborted (step (Search value) s) (signal r) = true.
Proof.
  intros Hs Hin. apply aborted_after_search.
  destruct (consistent_afterAbort s Hs) as [_ Hall].
  rewrite Forall_forall in Hall. apply Hall.
  destruct (afterAbort_fields s) as (_ & _ & _ & _ & Hreq & _).
  unfold signals. rewrite Hreq.
  apply list_elem_of_fmap. exists r. split; [reflexivity|exact Hin].
Qed.

Lemma new_request_in_flight (value : jsstring) (s : state) :
  length (trim value) ≠ 0%nat →
  in_flight (step (Search value) s)
    {| signal := length (controllers s); q := value; settled := false |}
  = true.
Proof.
  intros Hlen. apply Nat.eqb_neq in Hlen.
  destruct (search_fields value s) as (Hctl & _ & _). rewrite Hlen in Hctl.
  unfold in_flight, aborted. cbn [signal settled]. rewrite Hctl.
  rewrite lookup_app_r by (rewrite afterAbort_length; lia).
  rewrite afterAbort_length, Nat.sub_diag. reflexivity.
Qed.

(** C1. In every reachable state at most one request is in flight.  When
    the handler runs with a query whose trimmed form is not empty while an
    earlier request is still pending, the controller of that request has
    been aborted by the time the new request is issued (its [abort] comes
    earlier in the trace than the new [apiRequest], which is the last
    effect of the run), and the new request is then the only one in
    flight. *)
Theorem one_request_in_flight (evs : list event) :
  (length (outstanding (run evs mount)) ≤ 1)%nat ∧
  ∀ (value : jsstring) (p : nat) (r : request),
    requests (run evs mount) !! p = Some r → settled r = false →
    length (trim value) ≠ 0%nat →
    ∃ (before : list effect) (c : nat),
      trace (step (Search value) (run evs mount)) =
        before ++ [ApiRequest (js "GET") (js "v1/accounts/search") c value] ∧
      Abort (signal r) ∈ before ∧
      aborted (step (Search value) (run evs mount)) (signal r) = true ∧
      outstanding (step (Search value) (run evs mount)) =
        [{| signal := c; q := value; settled := false |}].
Proof.
  pose proof (reachable_consistent evs) as Hs.
  set (s := run evs mount) in *.
  split; [apply consistent_outstanding, Hs|].
  intros value p r Hp Hr Hlen.
  assert (Hin : r ∈ requests s) by (apply list_elem_of_lookup; eauto).
  destruct (search_fields value s) as (Hctl & Hreq & Htr).
  pose proof Hlen as Hlenb. apply Nat.eqb_neq in Hlenb.
  rewrite Hlenb in Hctl, Hreq, Htr.
  exists (trace s ++ abortEffects s
          ++ [SetSearching true; NewAbortController (length (controllers s))]),
         (length (controllers s)).
  split; [|split; [|split]].
  - rewrite Htr, <- !app_assoc. reflexivity.
  - pose proof (superseded_aborted s Hs) as H4. rewrite Forall_forall in H4.
    destruct (H4 (signal r)) as [Hcur|Hab].
    + apply list_elem_of_fmap. exists r. split; [reflexivity|exact Hin].
    + apply elem_of_app. right. apply elem_of_app. left.
      unfold abortEffects. rewrite Hcur. apply list_elem_of_singleton.
      reflexivity.
    + apply elem_of_app. left. apply (aborted_traced s Hs), Hab.
  - apply earlier_requests_cancelled; assumption.
  - unfold outstanding. rewrite Hreq, List.filter_app.
    rewrite filter_none.
    + cbn [List.filter app].
      rewrite (new_request_in_flight value s Hlen). reflexivity.
    + intros r' Hr'. unfold in_flight.
      rewrite (earlier_requests_cancelled value s r' Hs Hr').
      apply andb_false_r.
Qed.

(** C10. Every run of the handler, whatever the query, first aborts the
    controller stored in the [useRef] cell; only then does it look at the
    query.  After the run that controller's signal is aborted and none of
    the requests issued before the run is still in flight, so an empty
    query, besides clearing the results, cancels a pending search. *)
Theorem abort_comes_first (evs : list event) (value : jsstring) (c : nat) :
  searchRequestRef (run evs mount) = Some c →
  trace (step (Search value) (run evs mount)) =
    trace (run evs mount)
    ++ Abort c
       :: (if Nat.eqb (length (trim value)) 0 then [SetSearchAccountIds []]
           else [SetSearching true;
                 NewAbortController (length (controllers (run evs mount)));
                 ApiRequest (js "GET") (js "v1/accounts/search")
                   (length (controllers (run evs mount))) value]) ∧
  aborted (step (Search value) (run evs mount)) c = true ∧
  (∀ r : request,
     r ∈ requests (run evs mount) →
     in_flight (step (Search value) (run evs mount)) r = false) ∧
  (if Nat.eqb (length (trim value)) 0
   then outstanding (step (Search value) (run evs mount)) = []
   else length (outstanding (step (Search value) (run evs mount))) = 1%nat).
Proof.
  pose proof (reachable_consistent evs) as Hs.
  set (s := run evs mount) in *. intros Hcur.
  destruct (search_fields value s) as (Hctl & Hreq & Htr).
  assert (Hold : ∀ r, r ∈ requests s →
                      in_flight (step (Search value) s) r = false).
  { intros r Hin. unfold in_flight.
    rewrite (earlier_requests_cancelled value s r Hs Hin).
    apply andb_false_r. }
  split; [|split; [|split]].
  - rewrite Htr. unfold abortEffects. rewrite Hcur. reflexivity.
  - apply aborted_after_search. apply aborted_true_iff.
    destruct (afterAbort_fields s) as (_ & _ & _ & _ & _ & _ & Hc).
    rewrite Hc, Hcur. apply list_lookup_insert_eq.
    apply (ref_allocated s Hs), Hcur.
  - exact Hold.
  - unfold outstanding. rewrite Hreq, List.filter_app, (filter_none _ _ Hold).
    destruct (Nat.eqb (length (trim value)) 0) eqn:Hlen; [reflexivity|].
    apply Nat.eqb_neq in Hlen. cbn [List.filter app].
    rewrite (new_request_in_flight value s Hlen). reflexivity.
Qed.

(** ** The debounced handler *)

Lemma typing_app (ks1 ks2 : list keystroke) (ds : debounced) :
  typing (ks1 ++ ks2) ds = typing ks2 (typing ks1 ds).
Proof. unfold typing. apply fold_left_app. Qed.

Lemma key_elapse_waiting (dt : N) (d : Debounce.t jsstring) (s : state) :
  waiting d → (dt < searchDebounceWait)%N →
  key (Elapse dt) (d, s) =
    ({| Debounce.now := (Debounce.now d + dt)%N;
        Debounce.deadline := Debounce.deadline d;
        Debounce.st := Debounce.st d |}, s).
Proof.
  intros [Hdl Hst] Hdt. unfold key, Debounce.elapse. simpl.
  assert (Hle : (Debounce.deadline d <=? Debounce.now d + dt)%N = false).
  { apply N.leb_gt. rewrite Hdl. lia. }
  destruct (Debounce.st d); [contradiction|..]; rewrite Hle; reflexivity.
Qed.

Lemma key_submit_waiting (value : jsstring) (d : Debounce.t jsstring)
    (s : state) :
  Debounce.st d ≠ Debounce.Idle →
  key (Submit value) (d, s) =
    ({| Debounce.now := Debounce.now d;
        Debounce.deadline := (Debounce.now d + searchDebounceWait)%N;
        Debounce.st := Debounce.PendingTrailing value |}, s).
Proof.
  intros Hst. unfold key, Debounce.call. simpl.
  destruct (Debounce.st d); [contradiction|..]; reflexivity.
Qed.

Lemma key_quiet (dt : N) (d : Debounce.t jsstring) (s : state) :
  waiting d → (searchDebounceWait ≤ dt)%N →
  Debounce.st (fst (key (Elapse dt) (d, s))) = Debounce.Idle ∧
  snd (key (Elapse dt) (d, s)) =
    match Debounce.st d with
    | Debounce.PendingTrailing value => step (Search value) s
    | _ => s
    end.
Proof.
  intros [Hdl Hst] Hdt. unfold key, Debounce.elapse. simpl.
  assert (Hle : (Debounce.deadline d <=? Debounce.now d + dt)%N = true).
  { apply N.leb_le. rewrite Hdl. lia. }
  destruct (Debounce.st d); [contradiction|..]; rewrite Hle;
    split; reflexivity.
Qed.

(** While keystrokes follow one another within the wait, the callback is
    not run; the debouncer remembers the last one. *)
Lemma typing_burst (calls : list (N * jsstring)) (d : Debounce.t jsstring)
    (s : state) :
  Forall (λ gv, (fst gv < searchDebounceWait)%N) calls →
  waiting d →
  waiting (fst (typing (burst calls) (d, s))) ∧
  snd (typing (burst calls) (d, s)) = s ∧
  Debounce.st (fst (typing (burst calls) (d, s))) =
    match last calls with
    | Some gv => Debounce.PendingTrailing (snd gv)
    | None => Debounce.st d
    end.
Proof.
  revert d. induction calls as [|[gap value] calls IH]; intros d Hgaps Hd.
  - simpl. repeat split; apply Hd.
  - apply Forall_cons in Hgaps as [Hgap Hgaps]. simpl in Hgap.
    change (burst ((gap, value) :: calls))
      with ([Elapse gap; Submit value] ++ burst calls).
    rewrite typing_app. cbn [typing fold_left].
    rewrite (key_elapse_waiting gap d s Hd Hgap).
    rewrite key_submit_waiting by (simpl; apply Hd).
    match goal with |- context [typing (burst calls) (?d0, s)] =>
      set (d1 := d0) end.
    assert (Hd1 : waiting d1) by (split; [reflexivity|discriminate]).
    destruct (IH d1 Hgaps Hd1) as (Hw & Hs & Hst).
    split; [exact Hw|]. split; [exact Hs|].
    rewrite Hst, last_cons. destruct (last calls); reflexivity.
Qed.

(** C5. Keystrokes that come less than 500 time units apart are coalesced,
    whenever the burst starts on an idle debouncer, be it the first burst
    or a later one: the first keystroke runs the handler at once (leading);
    the ones that follow run nothing, neither when they arrive nor while
    the quiet period lasts; once 500 time units have passed without a
    keystroke the handler runs once more, with the last query (trailing),
    or not at all when the first keystroke was the only one.  The debouncer
    is then idle again, ready for the next burst.  So a burst starts at
    most two requests. *)
Theorem debounce_leading_trailing (s : state) (d : Debounce.t jsstring)
    (first : jsstring) (calls : list (N * jsstring)) (quiet : N) :
  Debounce.st d = Debounce.Idle →
  Forall (λ gv, (fst gv < 500)%N) calls →
  (500 ≤ quiet)%N →
  snd (typing [Submit first] (d, s))
    = step (Search first) s ∧
  snd (typing (Submit first :: burst calls) (d, s))
    = step (Search first) s ∧
  (∀ dt : N, (dt < 500)%N →
     snd (typing (Submit first :: burst calls ++ [Elapse dt]) (d, s))
       = step (Search first) s) ∧
  snd (typing (Submit first :: burst calls ++ [Elapse quiet]) (d, s))
    = match last calls with
      | Some gv => step (Search (snd gv)) (step (Search first) s)
      | None => step (Search first) s
      end ∧
  Debounce.st (fst (typing (Submit first :: burst calls ++ [Elapse quiet])
                      (d, s)))
    = Debounce.Idle.
Proof.
  intros Hidle0 Hgaps Hquiet.
  set (d1 := {| Debounce.now := Debounce.now d;
                Debounce.deadline := (Debounce.now d + searchDebounceWait)%N;
                Debounce.st := @Debounce.PendingLeading jsstring |}).
  assert (Hkey : key (Submit first) (d, s) = (d1, step (Search first) s)).
  { unfold key, Debounce.call. cbn [fst snd]. rewrite Hidle0. reflexivity. }
  assert (Hd1 : waiting d1) by (split; [reflexivity|discriminate]).
  destruct (typing_burst calls d1 (step (Search first) s) Hgaps Hd1)
    as (Hw & Hs & Hst).
  assert (Hcons : ∀ ks, typing (Submit first :: ks) (d, s)
                        = typing ks (d1, step (Search first) s)).
  { intros ks. unfold typing. cbn [fold_left]. rewrite Hkey. reflexivity. }
  split; [rewrite Hcons; reflexivity|]. split; [rewrite Hcons; exact Hs|].
  rewrite !Hcons.
  destruct (typing (burst calls) (d1, step (Search first) s)) as [d2 s2] eqn:Hb.
  cbn [fst snd] in Hw, Hs, Hst. subst s2.
  split; [|].
  - intros dt Hdt. rewrite Hcons, typing_app, Hb. cbn [typing fold_left].
    rewrite (key_elapse_waiting dt d2 _ Hw Hdt). reflexivity.
  - rewrite typing_app, Hb. cbn [typing fold_left].
    destruct (key_quiet quiet d2 (step (Search first) s) Hw Hquiet)
      as [Hidle Hrun].
    split; [|exact Hidle].
    rewrite Hrun, Hst. destruct (last calls); reflexivity.
Qed.

(** ** Further properties of [handleSearch] *)

Lemma trim_eqb_forallb (value : jsstring) :
  Nat.eqb (length (trim value)) 0 = forallb isTrimmable value.
Proof.
  destruct (forallb isTrimmable value) eqn:Hall.
  - apply Nat.eqb_eq, trim_length_zero_iff, Hall.
  - apply Nat.eqb_neq. intros H. apply trim_length_zero_iff in H.
    rewrite H in Hall. discriminate Hall.
Qed.

(** What a run of the handler leaves in the state, by whether the query is
    blank. *)
Lemma search_outcome (s : state) (value : jsstring) :
  requests (step (Search value) s) =
    requests s
    ++ (if forallb isTrimmable value then []
        else [{| signal := length (controllers s); q := value;
                 settled := false |}]) ∧
  searchRequestRef (step (Search value) s) =
    (if forallb isTrimmable value then searchRequestRef s
     else Some (length (controllers s))) ∧
  searching (step (Search value) s) =
    (if forallb isTrimmable value then searching s else true) ∧
  searchAccountIds (step (Search value) s) =
    (if forallb isTrimmable value then [] else searchAccountIds s).
Proof.
  destruct (search_fields value s) as (_ & Hreq & _).
  rewrite trim_eqb_forallb in Hreq. split; [exact Hreq|].
  destruct (afterAbort_fields s) as (Hids & _ & Hsearching & Href & _).
  pose proof (afterAbort_length s) as Hlen.
  destruct (forallb isTrimmable value) eqn:Hall.
  - apply trim_length_zero_iff in Hall.
    rewrite (handleSearch_empty value s Hall). run_handler.
    repeat split; assumption.
  - assert (Hnz : length (trim value) ≠ 0%nat).
    { intros H. apply trim_length_zero_iff in H. rewrite H in Hall.
      discriminate Hall. }
    rewrite (handleSearch_nonempty value s Hnz). simpl.
    rewrite Hlen. repeat split. exact Hids.
Qed.

(** X1. A run of the handler starts a request exactly when the query has a
    code unit that is not white space.  The request carries the query as
    typed, not trimmed, and the signal of a controller created in that
    run, which the cell then holds; the searching flag is raised and the
    results shown so far stay. *)
Theorem search_issues_request_iff_not_blank (s : state) (value : jsstring) :
  requests (step (Search value) s) =
    requests s
    ++ (if forallb isTrimmable value then []
        else [{| signal := length (controllers s); q := value;
                 settled := false |}]) ∧
  searchRequestRef (step (Search value) s) =
    (if forallb isTrimmable value then searchRequestRef s
     else Some (length (controllers s))) ∧
  searching (step (Search value) s) =
    (if forallb isTrimmable value then searching s else true) ∧
  searchAccountIds (step (Search value) s) =
    (if forallb isTrimmable value then [] else searchAccountIds s).
Proof. exact (search_outcome s value). Qed.

(** ** More facts about reachable states *)

Lemma step_searching_pending (e : event) (s : state) :
  (searching s = true →
   ∃ r, last (requests s) = Some r ∧ settled r = false) →
  searching (step e s) = true →
  ∃ r, last (requests (step e s)) = Some r ∧ settled r = false.
Proof.
  intros Hs. destruct e as [| |value|p data|p reason].
  - exact Hs.
  - exact Hs.
  - destruct (search_outcome s value)
      as (Hreq & _ & Hsearching & _).
    rewrite Hreq, Hsearching.
    destruct (forallb isTrimmable value).
    + rewrite app_nil_r. exact Hs.
    + intros _. rewrite last_snoc. eexists. split; reflexivity.
  - unfold step. destruct (settlePromise p s) as [s'|] eqn:Hs'; [|exact Hs].
    run_handler. intros H. discriminate H.
  - unfold step. destruct (settlePromise p s) as [s'|] eqn:Hs'; [|exact Hs].
    run_handler. intros H. discriminate H.
Qed.

Lemma run_invariant (P : state → Prop) :
  (∀ e s, P s → P (step e s)) →
  ∀ evs s, P s → P (run evs s).
Proof.
  intros Hstep evs. induction evs as [|e evs IH]; intros s Hs; simpl.
  - exact Hs.
  - apply IH, Hstep, Hs.
Qed.

(** X2. While the searching flag is up, the request issued last is still
    pending: the flag is never left up by a request that has settled. *)
Theorem searching_has_pending_request (evs : list event) :
  searching (run evs mount) = true →
  ∃ r, last (requests (run evs mount)) = Some r ∧ settled r = false.
Proof.
  apply (run_invariant
           (λ s, searching s = true →
                 ∃ r, last (requests s) = Some r ∧ settled r = false)).
  - intros e s. apply step_searching_pending.
  - intros H. discriminate H.
Qed.

Lemma step_signals (e : event) (s : state) :
  signals (step e s) =
    signals s
    ++ match e with
       | Search value =>
           if forallb isTrimmable value then []
           else [length (controllers s)]
       | _ => []
       end ∧
  length (controllers (step e s)) =
    (length (controllers s)
     + match e with
       | Search value => if forallb isTrimmable value then 0 else 1
       | _ => 0
       end)%nat ∧
  searchRequestRef (step e s) =
    match e with
    | Search value =>
        if forallb isTrimmable value then searchRequestRef s
        else Some (length (controllers s))
    | _ => searchRequestRef s
    end.
Proof.
  destruct e as [| |value|p data|p reason].
  - rewrite app_nil_r, Nat.add_0_r. repeat split.
  - rewrite app_nil_r, Nat.add_0_r. repeat split.
  - destruct (search_outcome s value) as (Hreq & Href & _).
    destruct (search_fields value s) as (Hctl & _ & _).
    rewrite trim_eqb_forallb in Hctl.
    unfold signals. rewrite Hreq, Hctl, Href, fmap_app, length_app.
    rewrite afterAbort_length.
    destruct (forallb isTrimmable value); repeat split.
  - rewrite app_nil_r, Nat.add_0_r. unfold step.
    destruct (settlePromise p s) as [s'|] eqn:Hs'; [|repeat split].
    apply settlePromise_fields in Hs' as (_ & _ & _ & Href & Hctl & _ & Hsig).
    rewrite <- Hsig, <- Hctl, <- Href. repeat split.
  - rewrite app_nil_r, Nat.add_0_r. unfold step.
    destruct (settlePromise p s) as [s'|] eqn:Hs'; [|repeat split].
    apply settlePromise_fields in Hs' as (_ & _ & _ & Href & Hctl & _ & Hsig).
    rewrite <- Hsig, <- Hctl, <- Href. repeat split.
Qed.

(** X3. Controllers and requests are created in pairs: the request issued
    [i]-th is guarded by the controller created [i]-th, so no controller
    guards two requests and aborting one request never cancels another. *)
Theorem one_controller_per_request (evs : list event) :
  signals (run evs mount) = seq 0 (length (controllers (run evs mount))) ∧
  length (requests (run evs mount)) = length (controllers (run evs mount)) ∧
  NoDup (signals (run evs mount)).
Proof.
  assert (H : signals (run evs mount)
              = seq 0 (length (controllers (run evs mount)))).
  { apply (run_invariant
             (λ s, signals s = seq 0 (length (controllers s)))).
    - intros e s Hs. destruct (step_signals e s) as (Hsig & Hlen & _).
      rewrite Hsig, Hlen, Hs, seq_app. simpl. f_equal.
      destruct e as [| |value|p data|p reason]; try reflexivity.
      destruct (forallb isTrimmable value); reflexivity.
    - reflexivity. }
  split; [exact H|]. split.
  - transitivity (length (signals (run evs mount))).
    + unfold signals. symmetry. apply length_map.
    + rewrite H. apply length_seq.
  - rewrite H. apply NoDup_seq.
Qed.

(** X4. The cell always holds the controller of the request issued last,
    and is empty only while no request has been issued: it is not cleared
    when a request settles or when the query becomes blank. *)
Theorem ref_tracks_latest_request (evs : list event) :
  searchRequestRef (run evs mount) = last (signals (run evs mount)).
Proof.
  apply (run_invariant (λ s, searchRequestRef s = last (signals s))).
  - intros e s Hs. destruct (step_signals e s) as (Hsig & _ & Href).
    rewrite Hsig, Href.
    destruct e as [| |value|p data|p reason];
      rewrite ?app_nil_r; try exact Hs.
    destruct (forallb isTrimmable value).
    + rewrite app_nil_r. exact Hs.
    + rewrite last_snoc. reflexivity.
  - reflexivity.
Qed.

Lemma afterAbort_aborted_mono (s : state) (c : nat) :
  aborted s c = true → aborted (afterAbort s) c = true.
Proof.
  intros H. apply aborted_true_iff. apply aborted_true_iff in H.
  destruct (afterAbort_fields s) as (_ & _ & _ & _ & _ & _ & Hctl).
  rewrite Hctl. destruct (searchRequestRef s) as [c0|]; [|exact H].
  destruct (decide (c0 = c)) as [->|Hne].
  - apply list_lookup_insert_eq. apply lookup_lt_Some in H. exact H.
  - rewrite list_lookup_insert_ne by exact Hne. exact H.
Qed.

Lemma step_aborted_mono (e : event) (s : state) (c : nat) :
  aborted s c = true → aborted (step e s) c = true.
Proof.
  intros H. destruct e as [| |value|p data|p reason].
  - exact H.
  - exact H.
  - apply aborted_after_search, afterAbort_aborted_mono, H.
  - unfold step. destruct (settlePromise p s) as [s'|] eqn:Hs'; [|exact H].
    apply settlePromise_fields in Hs' as (_ & _ & _ & _ & Hctl & _).
    unfold aborted in *. run_handler. rewrite Hctl. exact H.
  - unfold step. destruct (settlePromise p s) as [s'|] eqn:Hs'; [|exact H].
    apply settlePromise_fields in Hs' as (_ & _ & _ & _ & Hctl & _).
    unfold aborted in *. run_handler. rewrite Hctl. exact H.
Qed.

(** X5. Cancellation is permanent: a controller that has been aborted stays
    aborted whatever happens next, so a cancelled request never counts as
    in flight again. *)
Theorem abort_is_permanent (evs : list event) (s : state) (c : nat) :
  aborted s c = true → aborted (run evs s) c = true.
Proof.
  apply (run_invariant (λ s', aborted s' c = true)).
  intros e s'. apply step_aborted_mono.
Qed.

(** ** Settling a superseded request *)

Lemma filter_insert_neither {A} (f : A → bool) (l : list A) (p : nat)
    (x y : A) :
  l !! p = Some x → f x = false → f y = false →
  List.filter f (<[p := y]> l) = List.filter f l.
Proof.
  revert p. induction l as [|z l IH]; intros p Hp Hx Hy; [discriminate Hp|].
  destruct p as [|p]; simpl in *.
  - injection Hp as ->. rewrite Hx, Hy. reflexivity.
  - rewrite (IH p Hp Hx Hy). reflexivity.
Qed.

Lemma settle_superseded_outstanding (s : state) (p : nat) (r : request)
    (o : settlement (list ApiAccountJSON)) :
  requests s !! p = Some r → settled r = false →
  aborted s (signal r) = true →
  outstanding
    (step match o with
          | Fulfilled data => Resolve p data
          | Rejected reason => Reject p reason
          end s)
  = outstanding s.
Proof.
  intros Hp Hr Hab.
  assert (Hfilter :
    List.filter (in_flight s) (<[p := settle_request r]> (requests s))
    = List.filter (in_flight s) (requests s)).
  { apply (filter_insert_neither _ _ p r); [exact Hp|..].
    - unfold in_flight. rewrite Hab. apply andb_false_r.
    - reflexivity. }
  destruct o as [data|reason].
  - rewrite (resolve_exec s p r data Hp Hr). exact Hfilter.
  - rewrite (reject_exec s p r reason Hp Hr). exact Hfilter.
Qed.

(** X6. When a request that has already been aborted settles, the request
    in flight is untouched, yet the searching flag goes down; and when it
    resolves rather than fails, its records replace the results: the
    callbacks do not check whether their request is still the current
    one. *)
Theorem superseded_request_still_reports (s : state) (p : nat) (r : request)
    (data : list ApiAccountJSON) (reason : failure) :
  requests s !! p = Some r → settled r = false →
  aborted s (signal r) = true →
  outstanding (step (Reject p reason) s) = outstanding s ∧
  searching (step (Reject p reason) s) = false ∧
  outstanding (step (Resolve p data) s) = outstanding s ∧
  searching (step (Resolve p data) s) = false ∧
  searchAccountIds (step (Resolve p data) s) = map id data.
Proof.
  intros Hp Hr Hab.
  pose proof (settle_superseded_outstanding s p r (Rejected reason) Hp Hr Hab)
    as Hrej.
  pose proof (settle_superseded_outstanding s p r (Fulfilled data) Hp Hr Hab)
    as Hres.
  split; [exact Hrej|]. split.
  { rewrite (reject_exec s p r reason Hp Hr). reflexivity. }
  split; [exact Hres|].
  rewrite (resolve_exec s p r data Hp Hr). split; reflexivity.
Qed.

(** ** Mount and unmount *)

Lemma step_trace (e : event) (s : state) :
  ∃ added,
    trace (step e s) = trace s ++ added ∧
    List.filter isFetchSuggestions added = [] ∧
    List.filter isMarkAsPartial added = [].
Proof.
  destruct e as [| |value|p data|p reason].
  - exists [SetMode Add]. repeat split.
  - exists [SetMode Remove]. repeat split.
  - destruct (search_fields value s) as (_ & _ & Htr).
    eexists. split; [exact Htr|].
    unfold abortEffects.
    destruct (searchRequestRef s), (Nat.eqb (length (trim value)) 0);
      split; reflexivity.
  - unfold step. destruct (settlePromise p s) as [s'|] eqn:Hs'.
    + apply settlePromise_fields in Hs' as (_ & _ & _ & _ & _ & Htr & _).
      exists [Dispatch (importFetchedAccounts data);
              Dispatch (fetchRelationships (map id data));
              SetSearchAccountIds (map id data); SetSearching false].
      split; [|split; reflexivity].
      run_handler. rewrite Htr, <- !app_assoc. reflexivity.
    + exists []. rewrite app_nil_r. repeat split.
  - unfold step. destruct (settlePromise p s) as [s'|] eqn:Hs'.
    + apply settlePromise_fields in Hs' as (_ & _ & _ & _ & _ & Htr & _).
      exists [SetSearching false]. split; [|split; reflexivity].
      run_handler. rewrite Htr. reflexivity.
    + exists []. rewrite app_nil_r. repeat split.
Qed.

Lemma run_trace (evs : list event) (s : state) :
  ∃ added,
    trace (run evs s) = trace s ++ added ∧
    List.filter isFetchSuggestions added = [] ∧
    List.filter isMarkAsPartial added = [].
Proof.
  revert s. induction evs as [|e evs IH]; intros s; simpl.
  - exists []. rewrite app_nil_r. repeat split.
  - destruct (step_trace e s) as (a1 & Ht1 & Hf1 & Hm1).
    destruct (IH (step e s)) as (a2 & Ht2 & Hf2 & Hm2).
    exists (a1 ++ a2). rewrite Ht2, Ht1, <- app_assoc.
    rewrite !List.filter_app, Hf1, Hf2, Hm1, Hm2. repeat split.
Qed.

(** X7. Over the life of the component, from mount to unmount, the
    suggestions are fetched once, as the first effect, and the home
    timeline is marked as partial once, as the last; no handler in between
    dispatches either action. *)
Theorem lifecycle_dispatches (evs : list event) :
  ∃ between,
    trace (exec unmount (run evs mount)) =
      Dispatch fetchSuggestions :: between
      ++ [Dispatch (markAsPartial (js "home"))] ∧
    List.filter isFetchSuggestions between = [] ∧
    List.filter isMarkAsPartial between = [].
Proof.
  destruct (run_trace evs mount) as (added & Htr & Hf & Hm).
  exists added. split; [|split; assumption].
  run_handler. rewrite Htr. reflexivity.
Qed.

(** ** Switching modes *)

Lemma step_click (e : event) (s : state) :
  isClick e = true →
  searchAccountIds (step e s) = searchAccountIds s ∧
  searching (step e s) = searching s ∧
  searchRequestRef (step e s) = searchRequestRef s ∧
  controllers (step e s) = controllers s ∧
  requests (step e s) = requests s.
Proof.
  destruct e; intros H; try discriminate H; repeat split.
Qed.

(** X8. Going back and forth between the two modes, any number of times,
    leaves the search state alone: the results, the searching flag, the
    cell, the controllers and the requests are as before, so the results
    of the last search are shown again when search mode is entered. *)
Theorem mode_switches_keep_search_state (evs : list event) (s : state)
    (suggestions : list Suggestion) :
  forallb isClick evs = true →
  searchAccountIds (run evs s) = searchAccountIds s ∧
  searching (run evs s) = searching s ∧
  searchRequestRef (run evs s) = searchRequestRef s ∧
  controllers (run evs s) = controllers s ∧
  requests (run evs s) = requests s ∧
  displayedAccountIds suggestions (step SearchClick (run evs s))
    = searchAccountIds s.
Proof.
  revert s. induction evs as [|e evs IH]; intros s Hall.
  - repeat split.
  - simpl in Hall. apply andb_prop in Hall as [He Hall].
    destruct (step_click e s He) as (H1 & H2 & H3 & H4 & H5).
    destruct (IH (step e s) Hall) as (G1 & G2 & G3 & G4 & G5 & G6).
    change (run (e :: evs) s) with (run evs (step e s)).
    rewrite G1, G2, G3, G4, G5, G6. repeat split; assumption.
Qed.

(** ** What the user sees *)

Lemma step_mode (e : event) (s : state) :
  mode (step e s) =
    match e with
    | SearchClick => Add
    | DismissSearchClick => Remove
    | _ => mode s
    end.
Proof.
  destruct e as [| |value|p data|p reason]; try reflexivity.
  - unfold step. rewrite handleSearch_exec.
    destruct (afterAbort_fields s) as (_ & Hmode & _).
    destruct (Nat.eqb (length (trim value)) 0); run_handler; exact Hmode.
  - unfold step. destruct (settlePromise p s) as [s'|] eqn:Hs'; [|reflexivity].
    apply settlePromise_fields in Hs' as (_ & Hmode & _).
    run_handler. exact Hmode.
  - unfold step. destruct (settlePromise p s) as [s'|] eqn:Hs'; [|reflexivity].
    apply settlePromise_fields in Hs' as (_ & Hmode & _).
    run_handler. exact Hmode.
Qed.

(** X9. In search mode, a query that is not blank puts the list in its
    loading state and keeps the rows of the previous search; the loading
    placeholder replaces the list only when there were no rows. *)
Theorem render_while_searching (storeIsLoading : bool)
    (suggestions : list Suggestion) (s : state) (value : jsstring) :
  mode s = Add → forallb isTrimmable value = false →
  render storeIsLoading suggestions (step (Search value) s) =
    {| header := ColumnSearchHeaderView;
       showLoading := Nat.eqb (length (searchAccountIds s)) 0;
       hasMore := false;
       isLoading := true;
       emptyMessage := lists_no_results_found;
       children := searchAccountIds s |}.
Proof.
  intros Hmode Hblank.
  destruct (search_outcome s value) as (_ & _ & Hsearching & Hids).
  rewrite Hblank in Hsearching, Hids.
  pose proof (step_mode (Search value) s) as Hm. cbv beta iota in Hm.
  unfold render, displayedAccountIds.
  rewrite Hm, Hmode, Hsearching, Hids, orb_true_r. reflexivity.
Qed.

(** X10. In search mode, once a pending request resolves, the rows are the
    identifiers of the records received, in order, the list is loading only
    as far as the store says, and the loading placeholder shows only when
    the store is loading and nothing was found. *)
Theorem render_after_response (storeIsLoading : bool)
    (suggestions : list Suggestion) (s : state) (p : nat) (r : request)
    (data : list ApiAccountJSON) :
  mode s = Add → requests s !! p = Some r → settled r = false →
  render storeIsLoading suggestions (step (Resolve p data) s) =
    {| header := ColumnSearchHeaderView;
       showLoading := storeIsLoading && Nat.eqb (length data) 0;
       hasMore := false;
       isLoading := storeIsLoading;
       emptyMessage := lists_no_results_found;
       children := map id data |}.
Proof.
  intros Hmode Hp Hr. rewrite (resolve_exec s p r data Hp Hr).
  unfold render, displayedAccountIds.
  cbn [mode searching searchAccountIds].
  rewrite Hmode. cbn [Mode_eqb]. rewrite orb_false_r, length_map.
  reflexivity.
Qed.

(** X11. Outside search mode nothing the search does reaches the rows: as
    long as the search button is not clicked, the rows are the suggested
    accounts, under the plain header, whatever queries run and whatever
    responses arrive.  Only the loading state follows the searching
    flag. *)
Theorem render_outside_search_mode (storeIsLoading : bool)
    (suggestions : list Suggestion) (s : state) (e : event) :
  mode s = Remove → e ≠ SearchClick →
  render storeIsLoading suggestions (step e s) =
    {| header := ColumnHeaderView;
       showLoading := (storeIsLoading || searching (step e s))
                      && Nat.eqb (length suggestions) 0;
       hasMore := false;
       isLoading := storeIsLoading || searching (step e s);
       emptyMessage := onboarding_follows_empty;
       children := map account_id suggestions |}.
Proof.
  intros Hmode He.
  assert (Hm : mode (step e s) = Remove).
  { rewrite step_mode. destruct e; try exact Hmode; [|reflexivity].
    contradiction He. reflexivity. }
  unfold render, displayedAccountIds. rewrite Hm. cbn [Mode_eqb].
  rewrite length_map. reflexivity.
Qed.

(** X13. In search mode, a blank query empties the rows at once but leaves
    the loading state as it was: while the request it has just aborted is
    still pending the list shows the loading placeholder, not the
    "no results" message. *)
Theorem render_after_blank_query (storeIsLoading : bool)
    (suggestions : list Suggestion) (s : state) (value : jsstring) :
  mode s = Add → forallb isTrimmable value = true →
  render storeIsLoading suggestions (step (Search value) s) =
    {| header := ColumnSearchHeaderView;
       showLoading := storeIsLoading || searching s;
       hasMore := false;
       isLoading := storeIsLoading || searching s;
       emptyMessage := lists_no_results_found;
       children := [] |}.
Proof.
  intros Hmode Hblank.
  destruct (search_outcome s value) as (_ & _ & Hsearching & Hids).
  rewrite Hblank in Hsearching, Hids.
  pose proof (step_mode (Search value) s) as Hm. cbv beta iota in Hm.
  unfold render, displayedAccountIds.
  rewrite Hm, Hmode, Hsearching, Hids. cbn [Mode_eqb length Nat.eqb].
  rewrite andb_true_r. reflexivity.
Qed.
End Follows.

Arguments searchAccountIds {ApiAccountJSON} s.
Arguments mode {ApiAccountJSON} s.
Arguments searching {ApiAccountJSON} s.
Arguments searchRequestRef {ApiAccountJSON} s.
Arguments controllers {ApiAccountJSON} s.
Arguments requests {ApiAccountJSON} s.
Arguments trace {ApiAccountJSON} s.
Arguments fetchSuggestions {ApiAccountJSON}.
Arguments markAsPartial {ApiAccountJSON} timeline.
Arguments importFetchedAccounts {ApiAccountJSON} accounts.
Arguments fetchRelationships {ApiAccountJSON} accountIds.
Arguments SetSearchAccountIds {ApiAccountJSON} ids.
Arguments SetMode {ApiAccountJSON} m.
Arguments SetSearching {ApiAccountJSON} b.
Arguments Dispatch {ApiAccountJSON} a.
Arguments Abort {ApiAccountJSON} c.
Arguments NewAbortController {ApiAccountJSON} c.
Arguments ApiRequest {ApiAccountJSON} method path sig query.
Arguments SearchClick {ApiAccountJSON}.
Arguments DismissSearchClick {ApiAccountJSON}.
Arguments Search {ApiAccountJSON} value.
Arguments Resolve {ApiAccountJSON} p data.
Arguments Reject {ApiAccountJSON} p reason.
Arguments step {ApiAccountJSON} id e s.
Arguments run {ApiAccountJSON} id evs s.
Arguments searchSettled {ApiAccountJSON} id o.
Arguments displayedAccountIds {ApiAccountJSON Suggestion} account_id
  suggestions s.
Arguments aborted {ApiAccountJSON} s c.
Arguments in_flight {ApiAccountJSON} s r.
Arguments outstanding {ApiAccountJSON} s.
Arguments typing {ApiAccountJSON} id ks ds.

(** ** The hashtag record *)

Lemma history_fields_inv (h : Hashtag.ApiHistoryJSON) :
  Hashtag.history_of_fields (Hashtag.history_fields h) = h.
Proof. destruct h. reflexivity. Qed.

Lemma history_of_fields_inv (t : jsstring * jsstring * jsstring) :
  Hashtag.history_fields (Hashtag.history_of_fields t) = t.
Proof. destruct t as [[d a] u]. reflexivity. Qed.

(** C9. A hashtag record is a name, a URL, a sequence of history points,
    each a day, an accounts count and a uses count that are all strings,
    and an optional boolean following flag, and nothing else: records and
    such tuples correspond one to one. *)
Theorem hashtag_record_shape :
  (∀ h : Hashtag.ApiHashtagJSON,
     Hashtag.hashtag_of_fields (Hashtag.hashtag_fields h) = h) ∧
  (∀ t : jsstring * jsstring * list (jsstring * jsstring * jsstring)
         * option bool,
     Hashtag.hashtag_fields (Hashtag.hashtag_of_fields t) = t).
Proof.
  split.
  - intros [n u hs f].
    unfold Hashtag.hashtag_fields, Hashtag.hashtag_of_fields.
    cbn [Hashtag.name Hashtag.url Hashtag.history Hashtag.following].
    f_equal.
    induction hs as [|h hs IH]; cbn [map]; [reflexivity|].
    rewrite history_fields_inv, IH. reflexivity.
  - intros [[[n u] hs] f].
    unfold Hashtag.hashtag_fields, Hashtag.hashtag_of_fields.
    cbn [Hashtag.name Hashtag.url Hashtag.history Hashtag.following].
    f_equal. f_equal.
    induction hs as [|h hs IH]; cbn [map]; [reflexivity|].
    rewrite history_of_fields_inv, IH. reflexivity.
Qed.

(** ** The properties at concrete inputs

    on the sample records. *)

Lemma search_success_sets_results_witness :
  searchAccountIds
    (step sampleAccount_id (Resolve 0 [(js "1", js "alice"); (js "2", js "alan")])
       (run sampleAccount_id [SearchClick; Search (js "al")] (mount _)))
    = [js "1"; js "2"] ∧
  searching
    (step sampleAccount_id (Resolve 0 [(js "1", js "alice"); (js "2", js "alan")])
       (run sampleAccount_id [SearchClick; Search (js "al")] (mount _)))
    = false ∧
  displayedAccountIds sampleSuggestion_account_id [js "7"]
    (step sampleAccount_id (Resolve 0 [(js "1", js "alice"); (js "2", js "alan")])
       (run sampleAccount_id [SearchClick; Search (js "al")] (mount _)))
    = [js "1"; js "2"].
Proof.
  exact (search_success_sets_results sampleAccount sampleAccount_id
           sampleSuggestion sampleSuggestion_account_id
           (run sampleAccount_id [SearchClick; Search (js "al")] (mount _)) 0
           {| signal := 0; q := js "al"; settled := false |}
           [(js "1", js "alice"); (js "2", js "alan")] [js "7"]
           eq_refl eq_refl).
Defined.

Lemma search_success_dispatches_witness :
  trace
    (step sampleAccount_id (Resolve 0 [(js "1", js "alice"); (js "2", js "alan")])
       (run sampleAccount_id [SearchClick; Search (js "al")] (mount _)))
    = trace (run sampleAccount_id [SearchClick; Search (js "al")] (mount _))
      ++ [Dispatch (importFetchedAccounts
                      [(js "1", js "alice"); (js "2", js "alan")]);
          Dispatch (fetchRelationships [js "1"; js "2"]);
          SetSearchAccountIds [js "1"; js "2"];
          SetSearching false].
Proof.
  exact (search_success_dispatches sampleAccount sampleAccount_id
           (run sampleAccount_id [SearchClick; Search (js "al")] (mount _)) 0
           {| signal := 0; q := js "al"; settled := false |}
           [(js "1", js "alice"); (js "2", js "alan")]
           eq_refl eq_refl).
Defined.

Lemma search_failure_swallowed_witness :
  searching
    (step sampleAccount_id (Reject 0 AbortError)
       (run sampleAccount_id
          [SearchClick; Search (js "a"); Search (js "ab")] (mount _)))
    = false ∧
  searchAccountIds
    (step sampleAccount_id (Reject 0 AbortError)
       (run sampleAccount_id
          [SearchClick; Search (js "a"); Search (js "ab")] (mount _)))
    = [] ∧
  mode
    (step sampleAccount_id (Reject 0 AbortError)
       (run sampleAccount_id
          [SearchClick; Search (js "a"); Search (js "ab")] (mount _)))
    = Add ∧
  trace
    (step sampleAccount_id (Reject 0 AbortError)
       (run sampleAccount_id
          [SearchClick; Search (js "a"); Search (js "ab")] (mount _)))
    = trace
        (run sampleAccount_id
           [SearchClick; Search (js "a"); Search (js "ab")] (mount _))
      ++ [SetSearching false] ∧
  (∀ s0 : state sampleAccount,
     fst (searchSettled sampleAccount_id (Rejected AbortError) s0) = Fulfilled (inr tt)).
Proof.
  exact (search_failure_swallowed sampleAccount sampleAccount_id
           (run sampleAccount_id [SearchClick; Search (js "a"); Search (js "ab")]
              (mount _)) 0
           {| signal := 0; q := js "a"; settled := false |} AbortError
           eq_refl eq_refl).
Defined.

Lemma empty_query_clears_results_witness :
  searchAccountIds
    (step sampleAccount_id (Search (js "   "))
       (run sampleAccount_id
          [SearchClick; Search (js "al");
           Resolve 0 [(js "1", js "alice")]] (mount _)))
    = [] ∧
  requests
    (step sampleAccount_id (Search (js "   "))
       (run sampleAccount_id
          [SearchClick; Search (js "al");
           Resolve 0 [(js "1", js "alice")]] (mount _)))
    = [{| signal := 0; q := js "al"; settled := true |}].
Proof.
  pose proof
    (empty_query_clears_results sampleAccount sampleAccount_id
       (run sampleAccount_id [SearchClick; Search (js "al");
                 Resolve 0 [(js "1", js "alice")]] (mount _))
       (js "   ") eq_refl) as (Hids & Hreq & _).
  split; [exact Hids|exact Hreq].
Defined.

Lemma abort_comes_first_witness :
  trace
    (step sampleAccount_id (Search (js ""))
       (run sampleAccount_id
          [SearchClick; Search (js "a")] (mount _)))
    = trace
        (run sampleAccount_id
           [SearchClick; Search (js "a")] (mount _))
      ++ [Abort 0; SetSearchAccountIds []] ∧
  outstanding
    (step sampleAccount_id (Search (js ""))
       (run sampleAccount_id
          [SearchClick; Search (js "a")] (mount _)))
    = [].
Proof.
  pose proof
    (abort_comes_first sampleAccount sampleAccount_id
       [SearchClick; Search (js "a")] (js "") 0 eq_refl)
    as (Htr & _ & _ & Hout).
  split; [exact Htr|exact Hout].
Defined.

Lemma one_request_in_flight_witness :
  (length
     (outstanding
        (run sampleAccount_id
           [SearchClick; Search (js "a")] (mount _))) ≤ 1)%nat ∧
  ∃ (before : list (effect sampleAccount)) (c : nat),
    trace
      (step sampleAccount_id (Search (js "ab"))
         (run sampleAccount_id [SearchClick; Search (js "a")] (mount _)))
      = before ++ [ApiRequest (js "GET") (js "v1/accounts/search") c (js "ab")] ∧
    Abort 0 ∈ before ∧
    aborted
      (step sampleAccount_id (Search (js "ab"))
         (run sampleAccount_id [SearchClick; Search (js "a")] (mount _))) 0 = true ∧
    outstanding
      (step sampleAccount_id (Search (js "ab"))
         (run sampleAccount_id [SearchClick; Search (js "a")] (mount _)))
      = [{| signal := c; q := js "ab"; settled := false |}].
Proof.
  destruct (one_request_in_flight sampleAccount sampleAccount_id
              [SearchClick; Search (js "a")]) as [Hone Hnext].
  split; [exact Hone|].
  apply (Hnext (js "ab") 0%nat
           {| signal := 0; q := js "a"; settled := false |});
    [reflexivity|reflexivity|].
  intros H. vm_compute in H. discriminate H.
Defined.

Lemma debounce_leading_trailing_witness :
  snd (typing sampleAccount_id
         (Submit (js "b") :: burst [(100%N, js "bo"); (200%N, js "bob")]
          ++ [Elapse 500])
         ({| Debounce.now := 700; Debounce.deadline := 600;
             Debounce.st := Debounce.Idle |},
          run sampleAccount_id [Search (js "a"); Search (js "al")]
            (mount sampleAccount)))
    = step sampleAccount_id (Search (js "bob"))
        (step sampleAccount_id (Search (js "b"))
           (run sampleAccount_id [Search (js "a"); Search (js "al")]
              (mount sampleAccount))) ∧
  snd (typing sampleAccount_id
         (Submit (js "b") :: burst [(100%N, js "bo"); (200%N, js "bob")])
         ({| Debounce.now := 700; Debounce.deadline := 600;
             Debounce.st := Debounce.Idle |},
          run sampleAccount_id [Search (js "a"); Search (js "al")]
            (mount sampleAccount)))
    = step sampleAccount_id (Search (js "b"))
        (run sampleAccount_id [Search (js "a"); Search (js "al")]
           (mount sampleAccount)).
Proof.
  assert (Hgaps : Forall (λ gv : N * jsstring, (fst gv < 500)%N)
                    [(100%N, js "bo"); (200%N, js "bob")]).
  { repeat constructor. }
  assert (Hquiet : (500 ≤ 500)%N) by (intros H; discriminate H).
  pose proof
    (debounce_leading_trailing sampleAccount sampleAccount_id
       (run sampleAccount_id [Search (js "a"); Search (js "al")]
          (mount sampleAccount))
       {| Debounce.now := 700; Debounce.deadline := 600;
          Debounce.st := Debounce.Idle |}
       (js "b") [(100%N, js "bo"); (200%N, js "bob")] 500%N
       eq_refl Hgaps Hquiet)
    as (_ & Hburst & _ & Hend & _).
  split; [|exact Hburst].
  rewrite Hend. reflexivity.
Defined.

Arguments render {ApiAccountJSON Suggestion} account_id storeIsLoading
  suggestions s.
Arguments signals {ApiAccountJSON} s.
Arguments unmount {ApiAccountJSON}.

(** ** The search header *)

Lemma header_run_app (evs1 evs2 : list ColumnSearchHeader.event)
    (st : ColumnSearchHeader.state) :
  ColumnSearchHeader.run (evs1 ++ evs2) st =
    (fst (ColumnSearchHeader.run evs2
            (fst (ColumnSearchHeader.run evs1 st))),
     snd (ColumnSearchHeader.run evs1 st)
     ++ snd (ColumnSearchHeader.run evs2
               (fst (ColumnSearchHeader.run evs1 st)))).
Proof.
  revert st. induction evs1 as [|e evs1 IH]; intros st; simpl.
  - destruct (ColumnSearchHeader.run evs2 st). reflexivity.
  - destruct (ColumnSearchHeader.step e st) as [st1 calls1].
    rewrite IH.
    destruct (ColumnSearchHeader.run evs1 st1) as [st2 calls2]. simpl.
    rewrite app_assoc. reflexivity.
Qed.

Lemma header_value (evs : list ColumnSearchHeader.event)
    (st : ColumnSearchHeader.state) :
  ColumnSearchHeader.value (fst (ColumnSearchHeader.run evs st)) =
    default (ColumnSearchHeader.value st) (ColumnSearchHeader.lastChange evs).
Proof.
  unfold ColumnSearchHeader.lastChange.
  revert st. induction evs as [|e evs IH]; intros st; [reflexivity|].
  cbn [ColumnSearchHeader.run].
  destruct e as [v| |]; cbn [ColumnSearchHeader.step
    ColumnSearchHeader.handleChange ColumnSearchHeader.handleSubmit omap
    list_omap].
  - specialize (IH {| ColumnSearchHeader.value := v |}).
    destruct (ColumnSearchHeader.run evs _) as [st2 calls2].
    cbn [fst] in *. rewrite IH, last_cons.
    destruct (last _); reflexivity.
  - specialize (IH st).
    destruct (ColumnSearchHeader.run evs st) as [st2 calls2]. exact IH.
  - specialize (IH st).
    destruct (ColumnSearchHeader.run evs st) as [st2 calls2]. exact IH.
Qed.

(** X12. Whenever the search header reports a query, on a change of the
    input or on a submit of the form, the query is the text the input
    holds, which is the text of the last change (empty before the first
    one). *)
Theorem header_reports_current_text (evs : list ColumnSearchHeader.event)
    (e : ColumnSearchHeader.event) (st : ColumnSearchHeader.state) :
  e ≠ ColumnSearchHeader.BackClick →
  last (snd (ColumnSearchHeader.run (evs ++ [e]) st)) =
    Some (ColumnSearchHeader.onSubmit
            (ColumnSearchHeader.value
               (fst (ColumnSearchHeader.run (evs ++ [e]) st)))) ∧
  ColumnSearchHeader.value (fst (ColumnSearchHeader.run (evs ++ [e]) st)) =
    default (ColumnSearchHeader.value st)
      (ColumnSearchHeader.lastChange (evs ++ [e])).
Proof.
  intros He. split; [|apply header_value].
  rewrite header_run_app. cbn [fst snd].
  destruct (ColumnSearchHeader.run evs st) as [st1 calls1]. cbn [fst snd].
  destruct e as [v| |]; [| |contradiction He; reflexivity];
    simpl; rewrite last_snoc; reflexivity.
Qed.

Lemma header_reports_current_text_witness :
  last (snd (ColumnSearchHeader.run
               ([ColumnSearchHeader.Change (js "a");
                 ColumnSearchHeader.Change (js "al");
                 ColumnSearchHeader.BackClick]
                ++ [ColumnSearchHeader.SubmitForm])
               ColumnSearchHeader.init))
    = Some (ColumnSearchHeader.onSubmit (js "al")).
Proof.
  assert (He : ColumnSearchHeader.SubmitForm ≠ ColumnSearchHeader.BackClick)
    by discriminate.
  destruct (header_reports_current_text
              [ColumnSearchHeader.Change (js "a");
               ColumnSearchHeader.Change (js "al");
               ColumnSearchHeader.BackClick]
              ColumnSearchHeader.SubmitForm ColumnSearchHeader.init He)
    as [Hlast _].
  exact Hlast.
Defined.

(** ** The further properties on the sample records *)

Lemma searching_has_pending_request_witness :
  ∃ r,
    last (requests (run sampleAccount_id [SearchClick; Search (js "al")]
                      (mount _))) = Some r ∧
    settled r = false.
Proof.
  exact (searching_has_pending_request sampleAccount sampleAccount_id
           [SearchClick; Search (js "al")] eq_refl).
Defined.

Lemma abort_is_permanent_witness :
  aborted
    (run sampleAccount_id
       [Resolve 1 [(js "1", js "alice")]; Search (js "abc")]
       (run sampleAccount_id [Search (js "a"); Search (js "ab")] (mount _)))
    0 = true.
Proof.
  exact (abort_is_permanent sampleAccount sampleAccount_id
           [Resolve 1 [(js "1", js "alice")]; Search (js "abc")]
           (run sampleAccount_id [Search (js "a"); Search (js "ab")]
              (mount _))
           0 eq_refl).
Defined.

Lemma superseded_request_still_reports_witness :
  outstanding
    (step sampleAccount_id (Reject 0 AbortError)
       (run sampleAccount_id [Search (js "a"); Search (js "ab")] (mount _)))
    = [{| signal := 1; q := js "ab"; settled := false |}] ∧
  searching
    (step sampleAccount_id (Reject 0 AbortError)
       (run sampleAccount_id [Search (js "a"); Search (js "ab")] (mount _)))
    = false ∧
  searchAccountIds
    (step sampleAccount_id (Resolve 0 [(js "1", js "alice")])
       (run sampleAccount_id [Search (js "a"); Search (js "ab")] (mount _)))
    = [js "1"].
Proof.
  pose proof
    (superseded_request_still_reports sampleAccount sampleAccount_id
       (run sampleAccount_id [Search (js "a"); Search (js "ab")] (mount _))
       0 {| signal := 0; q := js "a"; settled := false |}
       [(js "1", js "alice")] AbortError eq_refl eq_refl eq_refl)
    as (Hout & Hsearching & _ & _ & Hids).
  split; [|split; [exact Hsearching|exact Hids]].
  rewrite Hout. reflexivity.
Defined.

Lemma mode_switches_keep_search_state_witness :
  displayedAccountIds sampleSuggestion_account_id [js "7"]
    (step sampleAccount_id SearchClick
       (run sampleAccount_id [DismissSearchClick; SearchClick;
                              DismissSearchClick]
          (run sampleAccount_id
             [SearchClick; Search (js "al");
              Resolve 0 [(js "1", js "alice")]] (mount _))))
    = [js "1"].
Proof.
  pose proof
    (mode_switches_keep_search_state sampleAccount sampleAccount_id
       sampleSuggestion sampleSuggestion_account_id
       [DismissSearchClick; SearchClick; DismissSearchClick]
       (run sampleAccount_id
          [SearchClick; Search (js "al");
           Resolve 0 [(js "1", js "alice")]] (mount _))
       [js "7"] eq_refl)
    as (_ & _ & _ & _ & _ & Hshown).
  rewrite Hshown. reflexivity.
Defined.

Lemma render_while_searching_witness :
  render sampleSuggestion_account_id false [js "7"]
    (step sampleAccount_id (Search (js "al"))
       (step sampleAccount_id SearchClick (mount _)))
    = {| header := ColumnSearchHeaderView; showLoading := true;
         hasMore := false; isLoading := true;
         emptyMessage := lists_no_results_found; children := [] |}.
Proof.
  exact (render_while_searching sampleAccount sampleAccount_id
           sampleSuggestion sampleSuggestion_account_id false [js "7"]
           (step sampleAccount_id SearchClick (mount _)) (js "al")
           eq_refl eq_refl).
Defined.

Lemma render_after_response_witness :
  render sampleSuggestion_account_id true [js "7"]
    (step sampleAccount_id
       (Resolve 0 [(js "1", js "alice"); (js "2", js "alan")])
       (run sampleAccount_id [SearchClick; Search (js "al")] (mount _)))
    = {| header := ColumnSearchHeaderView; showLoading := false;
         hasMore := false; isLoading := true;
         emptyMessage := lists_no_results_found;
         children := [js "1"; js "2"] |}.
Proof.
  exact (render_after_response sampleAccount sampleAccount_id
           sampleSuggestion sampleSuggestion_account_id true [js "7"]
           (run sampleAccount_id [SearchClick; Search (js "al")] (mount _))
           0 {| signal := 0; q := js "al"; settled := false |}
           [(js "1", js "alice"); (js "2", js "alan")]
           eq_refl eq_refl eq_refl).
Defined.

Lemma render_outside_search_mode_witness :
  render sampleSuggestion_account_id false [js "7"]
    (step sampleAccount_id (Resolve 0 [(js "1", js "alice")])
       (run sampleAccount_id
          [SearchClick; Search (js "al"); DismissSearchClick] (mount _)))
    = {| header := ColumnHeaderView; showLoading := false;
         hasMore := false; isLoading := false;
         emptyMessage := onboarding_follows_empty;
         children := [js "7"] |}.
Proof.
  assert (He : Resolve 0 [(js "1", js "alice")]
               ≠ @SearchClick sampleAccount) by discriminate.
  pose proof
    (render_outside_search_mode sampleAccount sampleAccount_id
       sampleSuggestion sampleSuggestion_account_id false [js "7"]
       (run sampleAccount_id
          [SearchClick; Search (js "al"); DismissSearchClick] (mount _))
       (Resolve 0 [(js "1", js "alice")]) eq_refl He) as Hview.
  rewrite Hview. reflexivity.
Defined.

Lemma render_after_blank_query_witness :
  render sampleSuggestion_account_id false [js "7"]
    (step sampleAccount_id (Search (js " "))
       (run sampleAccount_id [SearchClick; Search (js "al")] (mount _)))
    = {| header := ColumnSearchHeaderView; showLoading := true;
         hasMore := false; isLoading := true;
         emptyMessage := lists_no_results_found; children := [] |}.
Proof.
  exact (render_after_blank_query sampleAccount sampleAccount_id
           sampleSuggestion sampleSuggestion_account_id false [js "7"]
           (run sampleAccount_id [SearchClick; Search (js "al")] (mount _))
           (js " ") eq_refl eq_refl).
Defined.
